(** * Location-aware discovery and mapping: a shallow embedding

    The development embeds the algorithmic core of the restaurant finder:
    - [useGeolocation.js]: [haversine], [sortByDistance] and the state of
      the hook;
    - [HomePage.js]: [isOpen], the client-side filter, the state of the
      page and its banner;
    - [MapComponents.js]: the editable-pin map [OwnerMap] and the diners'
      map [DinerMap];
    - [DashboardPage.js]: [handleGeocode], the form with its map, and the
      menu that is saved.

    JavaScript numbers are idealised: a number is [NaN], an infinity, or an
    exact rational.  Rounding of IEEE doubles, overflow (but for that of
    [parseInt]) and the sign of zero are not tracked; everything else
    (propagation of [NaN], comparisons that are false on [NaN], conversion
    of strings) follows ECMAScript.  What the engine and the map widget
    decide (the order in which an inconsistent comparator leaves a list,
    the positions and moves the widget refuses) is kept apart from what
    the source decides. *)

From Stdlib Require Import ZArith QArith Qround Qabs Lqa Lia Bool.
From Stdlib Require Import List String Ascii Permutation Sorted.
Import ListNotations.

Set Implicit Arguments.

(* ------------------------------------------------------------------ *)
(** ** JavaScript numbers *)
(* ------------------------------------------------------------------ *)

Module JSNum.

Inductive number : Type :=
| NaN
| Inf (negative : bool)
| Fin (q : Q).

Definition Qltb (a b : Q) : bool := negb (Qle_bool b a).

Definition isNaN (x : number) : bool :=
  match x with NaN => true | _ => false end.

Definition nneg (x : number) : number :=
  match x with
  | NaN => NaN
  | Inf s => Inf (negb s)
  | Fin q => Fin (- q)
  end.

(** [x + y] *)
Definition nadd (x y : number) : number :=
  match x, y with
  | NaN, _ | _, NaN => NaN
  | Inf s, Inf t => if Bool.eqb s t then Inf s else NaN
  | Inf s, Fin _ | Fin _, Inf s => Inf s
  | Fin a, Fin b => Fin (a + b)
  end.

(** [x - y] *)
Definition nsub (x y : number) : number := nadd x (nneg y).

(** [x * y] *)
Definition nmul (x y : number) : number :=
  match x, y with
  | NaN, _ | _, NaN => NaN
  | Inf s, Inf t => Inf (xorb s t)
  | Inf s, Fin q | Fin q, Inf s =>
      if Qeq_bool q 0 then NaN else Inf (xorb s (Qltb q 0))
  | Fin a, Fin b => Fin (a * b)
  end.

(** [x / y]; a zero divisor counts as [+0]. *)
Definition ndiv (x y : number) : number :=
  match x, y with
  | NaN, _ | _, NaN => NaN
  | Inf _, Inf _ => NaN
  | Inf s, Fin q => Inf (xorb s (Qltb q 0))
  | Fin _, Inf _ => Fin 0
  | Fin a, Fin b =>
      if Qeq_bool b 0
      then (if Qeq_bool a 0 then NaN else Inf (Qltb a 0))
      else Fin (a / b)
  end.

(** [x < y]: false as soon as one side is [NaN]. *)
Definition nlt (x y : number) : bool :=
  match x, y with
  | NaN, _ | _, NaN => false
  | Inf s, Inf t => s && negb t
  | Inf s, Fin _ => s
  | Fin _, Inf t => negb t
  | Fin a, Fin b => Qltb a b
  end.

(** [x > y] *)
Definition ngt (x y : number) : bool := nlt y x.

(** [x >= y]: the negation of [x < y], except on [NaN]. *)
Definition nge (x y : number) : bool :=
  match x, y with
  | NaN, _ | _, NaN => false
  | _, _ => negb (nlt x y)
  end.

(** [x === y] on numbers. *)
Definition strict_eq (x y : number) : bool :=
  match x, y with
  | Inf s, Inf t => Bool.eqb s t
  | Fin a, Fin b => Qeq_bool a b
  | _, _ => false
  end.

(** [x !== y] *)
Definition strict_ne (x y : number) : bool := negb (strict_eq x y).

Definition ofZ (z : Z) : number := Fin (inject_Z z).

(** [x] is a finite number whose value is the integer [z]. *)
Definition int_valued (x : number) (z : Z) : Prop :=
  exists q, x = Fin q /\ q == inject_Z z.

(** [10^k] for any integer [k]. *)
Definition pow10 (k : Z) : Q :=
  if (0 <=? k)%Z then inject_Z (10 ^ k) else / inject_Z (10 ^ (- k)).

End JSNum.

Export JSNum.

(* ------------------------------------------------------------------ *)
(** ** JavaScript strings and their conversions to and from numbers *)
(* ------------------------------------------------------------------ *)

(** Strings are sequences of bytes; the functions below treat the ASCII
    range as ECMAScript does and leave other bytes alone. *)

Module JSString.

Local Open Scope string_scope.
Local Open Scope Z_scope.

Definition code (c : ascii) : Z := Z.of_N (N_of_ascii c).

(** White space: TAB, LF, VT, FF, CR and SP. *)
Definition is_ws (c : ascii) : bool :=
  let n := code c in ((9 <=? n) && (n <=? 13)) || (n =? 32).

Definition digit_of (c : ascii) : option Z :=
  let n := code c in
  if (48 <=? n) && (n <=? 57) then Some (n - 48) else None.

Definition digit_char (d : Z) : ascii := ascii_of_N (Z.to_N (48 + d)).

(** Value of [c] as a digit in the given radix (2, 8 or 16). *)
Definition radix_digit_of (radix : Z) (c : ascii) : option Z :=
  let n := code c in
  let v :=
    if (48 <=? n) && (n <=? 57) then Some (n - 48)
    else if (97 <=? n) && (n <=? 102) then Some (n - 87)
    else if (65 <=? n) && (n <=? 70) then Some (n - 55)
    else None in
  match v with
  | Some d => if d <? radix then Some d else None
  | None => None
  end.

Fixpoint trimStart (s : string) : string :=
  match s with
  | String c r => if is_ws c then trimStart r else s
  | EmptyString => EmptyString
  end.

Definition rev_string (s : string) : string :=
  string_of_list_ascii (rev (list_ascii_of_string s)).

Definition trim (s : string) : string :=
  rev_string (trimStart (rev_string (trimStart s))).

(** [s.split(sep)] for a one-character separator. *)
Fixpoint split (sep : ascii) (s : string) : list string :=
  match s with
  | EmptyString => [EmptyString]
  | String c r =>
      if Ascii.eqb c sep then EmptyString :: split sep r
      else match split sep r with
           | w :: ws => String c w :: ws
           | [] => [String c EmptyString]
           end
  end.

Definition lower_char (c : ascii) : ascii :=
  let n := code c in
  if (65 <=? n) && (n <=? 90) then ascii_of_N (Z.to_N (n + 32)) else c.

(** [s.toLowerCase()] *)
Fixpoint toLowerCase (s : string) : string :=
  match s with
  | EmptyString => EmptyString
  | String c r => String (lower_char c) (toLowerCase r)
  end.

(** [s.includes(q)] *)
Fixpoint includes (s q : string) : bool :=
  String.prefix q s ||
  match s with
  | EmptyString => false
  | String _ r => includes r q
  end.

(** Longest run of decimal digits at the head of [s]: its value on top of
    [acc], the number of digits read on top of [n], and the rest. *)
Fixpoint digits (s : string) (acc : Z) (n : Z) : Z * Z * string :=
  match s with
  | String c r =>
      match digit_of c with
      | Some d => digits r (10 * acc + d) (n + 1)
      | None => (acc, n, s)
      end
  | EmptyString => (acc, n, s)
  end.

(** An optional exponent part [e±ddd]; without one, exponent 0 and the
    input untouched. *)
Definition scan_exponent (s : string) : Z * string :=
  match s with
  | String c r =>
      if (code c =? 101) || (code c =? 69) then
        let '(sgn, r') :=
          match r with
          | String "+" r2 => (1, r2)
          | String "-" r2 => (-1, r2)
          | _ => (1, r)
          end in
        let '(v, n, rest) := digits r' 0 0 in
        if n =? 0 then (0, s) else (sgn * v, rest)
      else (0, s)
  | EmptyString => (0, s)
  end.

(** The longest unsigned decimal literal at the head of [s]. *)
Definition scan_decimal (s : string) : option (Q * string) :=
  let '(iv, inn, r1) := digits s 0 0 in
  let '(fv, fnn, r2) :=
    match r1 with
    | String "." r => digits r 0 0
    | _ => (0, 0, r1)
    end in
  if (inn =? 0) && (fnn =? 0) then None
  else
    let '(ex, r3) := scan_exponent r2 in
    Some (Qred (inject_Z (iv * 10 ^ fnn + fv) * pow10 (ex - fnn)), r3).

(** An optionally signed decimal literal or [Infinity]. *)
Definition scan_signed (s : string) : option (number * string) :=
  let '(neg, r) :=
    match s with
    | String "+" r => (false, r)
    | String "-" r => (true, r)
    | _ => (false, s)
    end in
  if String.prefix "Infinity" r
  then Some (Inf neg, String.substring 8 (String.length r - 8) r)
  else match scan_decimal r with
       | Some (q, rest) => Some (Fin (if neg then Qred (- q) else q), rest)
       | None => None
       end.

Fixpoint radix_digits (radix : Z) (s : string) (acc : Z) : option Z :=
  match s with
  | EmptyString => Some acc
  | String c r =>
      match radix_digit_of radix c with
      | Some d => radix_digits radix r (radix * acc + d)
      | None => None
      end
  end.

(** [0x], [0o] and [0b] literals, which take no sign. *)
Definition scan_radix (s : string) : option number :=
  match s with
  | String "0" (String c (String d r)) =>
      let n := code c in
      let radix :=
        if (n =? 120) || (n =? 88) then Some 16
        else if (n =? 111) || (n =? 79) then Some 8
        else if (n =? 98) || (n =? 66) then Some 2
        else None in
      match radix with
      | Some b =>
          match radix_digits b (String d r) 0 with
          | Some v => Some (ofZ v)
          | None => None
          end
      | None => None
      end
  | _ => None
  end.

(** [Number(s)]: the whole trimmed string must be a numeric literal; the
    empty string converts to 0. *)
Definition Number (s : string) : number :=
  let t := trim s in
  match t with
  | EmptyString => ofZ 0
  | _ =>
      match scan_radix t with
      | Some v => v
      | None =>
          match scan_signed t with
          | Some (v, EmptyString) => v
          | _ => NaN
          end
      end
  end.

(** [parseFloat(s)]: the longest numeric prefix after leading white space. *)
Definition parseFloat (s : string) : number :=
  match scan_signed (trimStart s) with
  | Some (v, _) => v
  | None => NaN
  end.

(** Decimal digits of [n], least significant first onto [tail]. *)
Fixpoint dec_digits (fuel : nat) (n : Z) (tail : string) : string :=
  match fuel with
  | O => tail
  | S f =>
      let tail' := String (digit_char (n mod 10)) tail in
      if n / 10 =? 0 then tail' else dec_digits f (n / 10) tail'
  end.

Definition int_string (n : Z) : string :=
  dec_digits (S (Z.to_nat (Z.log2 n))) n EmptyString.

(** Exactly [k] digits of [n], padded with zeros on the left. *)
Fixpoint pad_digits (k : nat) (n : Z) (tail : string) : string :=
  match k with
  | O => tail
  | S k' => pad_digits k' (n / 10) (String (digit_char (n mod 10)) tail)
  end.

(** The integer [n] closest to [x * 10^d], the larger one on a tie
    ([x] non-negative). *)
Definition fixed_digits (d : nat) (x : Q) : Z :=
  Qfloor (x * inject_Z (10 ^ Z.of_nat d) + (1 # 2))%Q.

Definition fixed_abs (d : nat) (x : Q) : string :=
  let n := fixed_digits d x in
  let p := 10 ^ Z.of_nat d in
  match d with
  | O => int_string n
  | _ => int_string (n / p) ++ String "." (pad_digits d (n mod p) EmptyString)
  end.

(** [x.toFixed(d)].  Beyond 10^21 ECMAScript prints the number in exponent
    notation, which [parseFloat] reads back as the number itself; a double
    of that size is an integer, so this is again its rounding to [d]
    decimals, which is what the model prints throughout. *)
Definition toFixed (d : nat) (x : number) : string :=
  match x with
  | NaN => "NaN"
  | Inf false => "Infinity"
  | Inf true => "-Infinity"
  | Fin q =>
      if Qltb q 0 then String "-" (fixed_abs d (- q)%Q) else fixed_abs d q
  end.

(** The decimal with [d] fractional digits nearest to [q], ties away from
    zero: the number that [parseFloat(q.toFixed(d))] denotes. *)
Definition round_dec (d : nat) (q : Q) : Q :=
  if Qltb q 0
  then Qred (- Qred (inject_Z (fixed_digits d (- q)) * pow10 (- Z.of_nat d)))
  else Qred (inject_Z (fixed_digits d q) * pow10 (- Z.of_nat d)).

End JSString.

Export JSString.

(* ------------------------------------------------------------------ *)
(** ** HomePage.js: the opening-hours test *)
(* ------------------------------------------------------------------ *)

Module TimeWindow.

Local Open Scope string_scope.

(** What [new Date()] is asked for: the local hour and minute. *)
Record Date : Type := { getHours : Z; getMinutes : Z }.

(** The wall clock at a given minute of the day. *)
Definition date_of_minute (n : Z) : Date :=
  {| getHours := (n / 60)%Z; getMinutes := (n mod 60)%Z |}.

(** [!t] for a value that is a string or absent. *)
Definition falsy (t : option string) : bool :=
  match t with
  | None => true
  | Some EmptyString => true
  | Some _ => false
  end.

(** [t.split(":").map(Number)] *)
Definition time_parts (t : option string) : list number :=
  match t with
  | Some s => map Number (split ":" s)
  | None => []
  end.

(** Element [i] of a destructured array, as it enters arithmetic: a missing
    element is [undefined], which converts to [NaN]. *)
Definition part (i : nat) (ps : list number) : number := nth i ps NaN.

(** [isOpen(openTime, closeTime)], with the clock reading [now] explicit. *)
Definition isOpen (openTime closeTime : option string) (now : Date) : bool :=
  if falsy openTime || falsy closeTime then false
  else
    let currentMinutes :=
      nadd (nmul (ofZ (getHours now)) (ofZ 60)) (ofZ (getMinutes now)) in
    let openH := part 0 (time_parts openTime) in
    let openM := part 1 (time_parts openTime) in
    let closeH := part 0 (time_parts closeTime) in
    let closeM := part 1 (time_parts closeTime) in
    let openMinutes := nadd (nmul openH (ofZ 60)) openM in
    let closeMinutes := nadd (nmul closeH (ofZ 60)) closeM in
    if nlt closeMinutes openMinutes then
      let closeMinutes := nadd closeMinutes (nmul (ofZ 24) (ofZ 60)) in
      if nlt currentMinutes openMinutes then
        nlt (nadd currentMinutes (nmul (ofZ 24) (ofZ 60))) closeMinutes
        || nlt currentMinutes (nsub closeMinutes (nmul (ofZ 24) (ofZ 60)))
      else
        nge currentMinutes openMinutes && nlt currentMinutes closeMinutes
    else
      nge currentMinutes openMinutes && nlt currentMinutes closeMinutes.

(** The hour or the minute component of the bound does not convert to a
    number. *)
Definition unparsable (t : option string) : bool :=
  isNaN (part 0 (time_parts t)) || isNaN (part 1 (time_parts t)).

(** The two-digit rendering of [n], and the string ["HH:MM"]. *)
Definition two_digits (n : Z) : string :=
  String (digit_char (n / 10)) (String (digit_char (n mod 10)) EmptyString).

Definition hhmm (h m : Z) : string :=
  two_digits h ++ String ":" (two_digits m).

(** A well-formed time of day. *)
Definition well_formed (s : string) : Prop :=
  exists h m : Z, (0 <= h < 24)%Z /\ (0 <= m < 60)%Z /\ s = hhmm h m.

(** Minutes since midnight denoted by [hhmm h m]. *)
Definition minutes (h m : Z) : Z := (h * 60 + m)%Z.

End TimeWindow.

(* ------------------------------------------------------------------ *)
(** ** Listings *)
(* ------------------------------------------------------------------ *)

Module Listings.

(** A coordinate field of a document: a number, [null], or no field at
    all ([undefined] when read). *)
Inductive coordinate : Type :=
| Degrees (x : number)
| Null
| Missing.

(** A restaurant document.  Every field but [id] may be absent; [distance]
    is the field that [sortByDistance] adds. *)
Record Listing : Type := {
  id : string;
  name : option string;
  city : option string;
  address : option string;
  categories : option (list string);
  lat : coordinate;
  lng : coordinate;
  openTime : option string;
  closeTime : option string;
  distance : option number
}.

(** [{ ...item, distance: d }] *)
Definition with_distance (item : Listing) (d : number) : Listing :=
  {| id := id item; name := name item; city := city item;
     address := address item; categories := categories item;
     lat := lat item; lng := lng item;
     openTime := openTime item; closeTime := closeTime item;
     distance := Some d |}.

(** The listing without its [distance] field. *)
Definition without_distance (item : Listing) : Listing :=
  {| id := id item; name := name item; city := city item;
     address := address item; categories := categories item;
     lat := lat item; lng := lng item;
     openTime := openTime item; closeTime := closeTime item;
     distance := None |}.

(** [item.lat != null && item.lng != null]: neither [null] nor
    [undefined]. *)
Definition has_coords (item : Listing) : bool :=
  match lat item, lng item with
  | Degrees _, Degrees _ => true
  | _, _ => false
  end.

(** A property read in arithmetic: [undefined] converts to [NaN]. *)
Definition to_number (v : option number) : number :=
  match v with Some x => x | None => NaN end.

(** A coordinate read in arithmetic: [null] converts to 0, [undefined] to
    [NaN]. *)
Definition coordinate_number (v : coordinate) : number :=
  match v with
  | Degrees x => x
  | Null => ofZ 0
  | Missing => NaN
  end.

(** The coordinate, with 0 for [null]. *)
Definition null_as_zero (v : coordinate) : coordinate :=
  match v with
  | Null => Degrees (ofZ 0)
  | _ => v
  end.

(** The listing with 0 where a coordinate is [null]. *)
Definition nulls_as_zero (item : Listing) : Listing :=
  {| id := id item; name := name item; city := city item;
     address := address item; categories := categories item;
     lat := null_as_zero (lat item); lng := null_as_zero (lng item);
     openTime := openTime item; closeTime := closeTime item;
     distance := distance item |}.

End Listings.

Export Listings.

(* ------------------------------------------------------------------ *)
(** ** HomePage.js: the client-side filter *)
(* ------------------------------------------------------------------ *)

Module Filter.

Local Open Scope string_scope.

Record Criteria : Type := {
  selectedDistrict : string;
  selectedCat : string;
  searchQuery : string
}.

(** [v || ""] *)
Definition or_empty (v : option string) : string :=
  match v with
  | Some s => s
  | None => EmptyString
  end.

(** [v || []] *)
Definition or_nil (v : option (list string)) : list string :=
  match v with
  | Some l => l
  | None => []
  end.

(** [v === s] for a property that may be absent. *)
Definition prop_eq (v : option string) (s : string) : bool :=
  match v with
  | Some t => String.eqb t s
  | None => false
  end.

Definition matchDist (c : Criteria) (r : Listing) : bool :=
  String.eqb (selectedDistrict c) "All Districts"
  || prop_eq (city r) (selectedDistrict c).

Definition matchCat (c : Criteria) (r : Listing) : bool :=
  String.eqb (selectedCat c) "all"
  || existsb (String.eqb (selectedCat c)) (or_nil (categories r)).

Definition matchQ (c : Criteria) (r : Listing) : bool :=
  let q := toLowerCase (searchQuery c) in
  String.eqb q EmptyString
  || includes (toLowerCase (or_empty (name r))) q
  || includes (toLowerCase (or_empty (city r))) q
  || existsb (fun t => includes t q) (or_nil (categories r))
  || includes (toLowerCase (or_empty (address r))) q.

(** The callback of [restaurants.filter]. *)
Definition keeps (c : Criteria) (r : Listing) : bool :=
  matchDist c r && matchCat c r && matchQ c r.

Definition filtered (c : Criteria) (restaurants : list Listing) : list Listing :=
  filter (keeps c) restaurants.

(** The text predicate as the specification words it: the query is empty,
    or it occurs, letter case ignored, in the name, the city, the address
    or one of the category tokens. *)
Definition text_spec (c : Criteria) (r : Listing) : bool :=
  let q := toLowerCase (searchQuery c) in
  String.eqb (searchQuery c) EmptyString
  || includes (toLowerCase (or_empty (name r))) q
  || includes (toLowerCase (or_empty (city r))) q
  || includes (toLowerCase (or_empty (address r))) q
  || existsb (fun t => includes (toLowerCase t) q) (or_nil (categories r)).

(** A listing whose category token is capitalised, and the search for it
    in lower case. *)
Definition indian_place : Listing :=
  {| id := "r1"; name := Some "Masala House"; city := Some "Kampala";
     address := Some "Plot 4, Acacia Avenue";
     categories := Some ["Indian"];
     lat := Missing; lng := Missing; openTime := None; closeTime := None;
     distance := None |}.

Definition search_indian : Criteria :=
  {| selectedDistrict := "All Districts"; selectedCat := "all";
     searchQuery := "indian" |}.

(** The criteria that constrain nothing. *)
Definition no_constraint : Criteria :=
  {| selectedDistrict := "All Districts"; selectedCat := "all";
     searchQuery := "" |}.

End Filter.

(* ------------------------------------------------------------------ *)
(** ** Positions *)
(* ------------------------------------------------------------------ *)

Module LatLng.

Record t : Type := { lat : number; lng : number }.

End LatLng.

(* ------------------------------------------------------------------ *)
(** ** useGeolocation.js: distance and ranking *)
(* ------------------------------------------------------------------ *)

Module Geolocation.

(** The host's [Math] functions on finite arguments.  ECMAScript leaves
    their values to the implementation; what it fixes (the results on
    [NaN], on infinities and on negative radicands) is in the wrappers
    below. *)
Record HostMath : Type := {
  sin_fin : Q -> Q;
  cos_fin : Q -> Q;
  sqrt_fin : Q -> Q;
  atan2_fin : Q -> Q -> Q
}.

(** [Math.PI], read as the decimal it prints as. *)
Definition Math_PI : number := Fin (3141592653589793 # 1000000000000000).

Definition pi_times (k : Q) : number := nmul Math_PI (Fin k).

Section Host.

Variable M : HostMath.

Definition Math_sin (x : number) : number :=
  match x with
  | Fin q => Fin (sin_fin M q)
  | _ => NaN
  end.

Definition Math_cos (x : number) : number :=
  match x with
  | Fin q => Fin (cos_fin M q)
  | _ => NaN
  end.

Definition Math_sqrt (x : number) : number :=
  match x with
  | NaN => NaN
  | Inf s => if s then NaN else Inf false
  | Fin q => if Qltb q 0 then NaN else Fin (sqrt_fin M q)
  end.

Definition Math_atan2 (y x : number) : number :=
  match y, x with
  | NaN, _ | _, NaN => NaN
  | Inf sy, Inf sx =>
      let r := if sx then pi_times (3 # 4) else pi_times (1 # 4) in
      if sy then nneg r else r
  | Inf sy, Fin _ => if sy then nneg (pi_times (1 # 2)) else pi_times (1 # 2)
  | Fin q, Inf sx =>
      if sx then (if Qltb q 0 then nneg Math_PI else Math_PI) else Fin 0
  | Fin a, Fin b => Fin (atan2_fin M a b)
  end.

(** [haversine(lat1, lng1, lat2, lng2)]: distance in kilometres. *)
Definition haversine (lat1 lng1 lat2 lng2 : number) : number :=
  let R := ofZ 6371 in
  let dLat := nmul (nsub lat2 lat1) (ndiv Math_PI (ofZ 180)) in
  let dLng := nmul (nsub lng2 lng1) (ndiv Math_PI (ofZ 180)) in
  let a :=
    nadd
      (nmul (Math_sin (ndiv dLat (ofZ 2))) (Math_sin (ndiv dLat (ofZ 2))))
      (nmul
         (nmul
            (nmul (Math_cos (nmul lat1 (ndiv Math_PI (ofZ 180))))
                  (Math_cos (nmul lat2 (ndiv Math_PI (ofZ 180)))))
            (Math_sin (ndiv dLng (ofZ 2))))
         (Math_sin (ndiv dLng (ofZ 2)))) in
  let c :=
    nmul (ofZ 2) (Math_atan2 (Math_sqrt a) (Math_sqrt (nsub (ofZ 1) a))) in
  nmul R c.

(** The same distance as the specification words it, on finite
    coordinates: the central angle [2 atan2(sqrt a, sqrt (1 - a))] of the
    haversine [a], times the Earth radius of 6371 km. *)
Definition radians (deg : Q) : Q :=
  deg * ((3141592653589793 # 1000000000000000) / 180).

Definition haversine_a (lat1 lng1 lat2 lng2 : Q) : Q :=
  let s1 := sin_fin M (radians (lat2 - lat1) / 2) in
  let s2 := sin_fin M (radians (lng2 - lng1) / 2) in
  s1 * s1 + cos_fin M (radians lat1) * cos_fin M (radians lat2) * s2 * s2.

Definition great_circle_km (lat1 lng1 lat2 lng2 : Q) : number :=
  let a := haversine_a lat1 lng1 lat2 lng2 in
  nmul (ofZ 6371)
    (nmul (ofZ 2)
       (Math_atan2 (Math_sqrt (Fin a)) (Math_sqrt (Fin (1 - a))))).

(** [Array.prototype.sort(cmp)].  ECMAScript asks for a stable sort and
    reads a [NaN] from the comparator as 0.  The model is the stable
    insertion sort: an element moves right past the elements it compares
    strictly greater than.  For a consistent comparator this is the list
    every engine returns.  A comparator that returns [NaN] for some pairs,
    as [by_distance] does once a distance is [NaN], is not consistent; the
    standard then leaves the order to the engine, and engines that insert
    by bisection or merge runs give other orders than this insertion sort.
    What the facts below say of the order of a result, they say of lists
    without a [NaN] distance, of concrete short lists, or of a list that
    is itself a result of the sort; what else they say of every list
    (which listings the result holds, and with which fields) holds of any
    order. *)
Section Sort.

Variable A : Type.
Variable cmp : A -> A -> number.

Definition sorts_after (x y : A) : bool := ngt (cmp x y) (ofZ 0).

Fixpoint insert (x : A) (l : list A) : list A :=
  match l with
  | [] => [x]
  | y :: r => if sorts_after x y then y :: insert x r else x :: l
  end.

Definition sort (l : list A) : list A := fold_right insert [] l.


End Sort.

(** [a.distance], read in arithmetic. *)
Definition distance_of (item : Listing) : number := to_number (distance item).

(** The comparator [(a, b) => a.distance - b.distance]. *)
Definition by_distance (a b : Listing) : number :=
  nsub (distance_of a) (distance_of b).

(** The value the map callback stores in [distance]. *)
Definition rounded_distance (coords : LatLng.t) (item : Listing) : number :=
  parseFloat
    (toFixed 2
       (haversine (LatLng.lat coords) (LatLng.lng coords)
          (coordinate_number (lat item)) (coordinate_number (lng item)))).

Definition annotate (coords : LatLng.t) (item : Listing) : Listing :=
  with_distance item (rounded_distance coords item).

(** [b.distance >= a.distance]: [b] is at least as far as [a]. *)
Definition ascending (a b : Listing) : Prop :=
  nge (distance_of b) (distance_of a) = true.

(** [sortByDistance(list)]; [coords] is the hook's state, [None] for
    [null], and [items] is the argument [list]. *)
Definition sortByDistance (coords : option LatLng.t) (items : list Listing)
  : list Listing :=
  match coords with
  | None => items
  | Some c => sort by_distance (map (annotate c) items)
  end.

End Host.

Definition lacks_coords (item : Listing) : bool := negb (has_coords item).

(** The scenario of the specification: a visitor at (0.30, 32.58), two
    listings with a pin and one without. *)
Definition place (i : string) (pin : option (Q * Q)) : Listing :=
  {| id := i; name := Some i; city := Some "Kampala"%string;
     address := None; categories := None;
     lat := match pin with
            | Some p => Degrees (Fin (fst p))
            | None => Missing
            end;
     lng := match pin with
            | Some p => Degrees (Fin (snd p))
            | None => Missing
            end;
     openTime := None; closeTime := None; distance := None |}.

Definition visitor : LatLng.t :=
  {| LatLng.lat := Fin (30 # 100); LatLng.lng := Fin (3258 # 100) |}.

Definition listing_A : Listing := place "A" (Some (31 # 100, 3259 # 100)).
Definition listing_B : Listing := place "B" (Some (40 # 100, 3270 # 100)).
Definition listing_C : Listing := place "C" None.



End Geolocation.

(* ------------------------------------------------------------------ *)
(** ** HomePage.js: what the page lists *)
(* ------------------------------------------------------------------ *)

Module HomePage.

(** [displayed]: the filtered listings, ranked when the position is on. *)
Definition displayed (M : Geolocation.HostMath) (gpsActive : bool)
           (coords : option LatLng.t) (c : Filter.Criteria)
           (restaurants : list Listing) : list Listing :=
  if gpsActive
  then Geolocation.sortByDistance M coords (Filter.filtered c restaurants)
  else Filter.filtered c restaurants.

End HomePage.

(* ------------------------------------------------------------------ *)
(** ** A rational instance of the host functions *)
(* ------------------------------------------------------------------ *)

(** Truncated power series with twenty decimals kept, accurate far beyond
    the two decimals that [sortByDistance] retains, for arguments within
    half a turn.  The instance serves to evaluate the definitions on
    concrete listings. *)

Module RefMath.

Definition keep (q : Q) : Q :=
  Qfloor (q * inject_Z (10 ^ 20)) # (10 ^ 20).

Definition pi : Q := 314159265358979323846 # (10 ^ 20).

(** [acc + sum of the next n terms], each term being the previous one times
    [mx2 / ((k+1)(k+2))]. *)
Fixpoint series (n : nat) (k : Z) (mx2 term acc : Q) : Q :=
  match n with
  | O => acc
  | S n' =>
      let term' := keep (term * mx2 / inject_Z ((k + 1) * (k + 2))) in
      series n' (k + 2) mx2 term' (acc + term')
  end.

Definition sin_ref (x : Q) : Q := keep (series 11 1 (- (x * x)) x x).

Definition cos_ref (x : Q) : Q := keep (series 11 0 (- (x * x)) 1 1).

Definition sqrt_ref (x : Q) : Q :=
  Z.sqrt (Qfloor (x * inject_Z (10 ^ 40))) # (10 ^ 20).

(** [t - t^3/3 + t^5/5 - ...], for small [t]. *)
Fixpoint atan_series (n : nat) (k : Z) (mt2 power acc : Q) : Q :=
  match n with
  | O => acc
  | S n' =>
      let power' := keep (power * mt2) in
      atan_series n' (k + 2) mt2 power'
        (keep (acc + power' / inject_Z (k + 2)))
  end.

(** Halving of the angle: [atan t = 2 atan (t / (1 + sqrt (1 + t^2)))]. *)
Definition half_angle (t : Q) : Q := keep (t / (1 + sqrt_ref (1 + t * t))).

(** [atan t] for [|t| <= 1]. *)
Definition atan_unit (t : Q) : Q :=
  let u := half_angle (half_angle (half_angle t)) in
  keep (8 * atan_series 9 1 (- (u * u)) u u).

Definition atan_ref (t : Q) : Q :=
  if Qle_bool (Qabs t) 1 then atan_unit t
  else if Qle_bool 0 t then pi / 2 - atan_unit (/ t)
  else - (pi / 2) - atan_unit (/ t).

Definition atan2_ref (y x : Q) : Q :=
  if Qltb 0 x then atan_ref (y / x)
  else if Qltb x 0 then
    (if Qltb y 0 then atan_ref (y / x) - pi else atan_ref (y / x) + pi)
  else if Qltb 0 y then pi / 2
  else if Qltb y 0 then - (pi / 2)
  else 0.

Definition host : Geolocation.HostMath :=
  {| Geolocation.sin_fin := sin_ref;
     Geolocation.cos_fin := cos_ref;
     Geolocation.sqrt_fin := sqrt_ref;
     Geolocation.atan2_fin := atan2_ref |}.

End RefMath.

(* ------------------------------------------------------------------ *)
(** ** MapComponents.js: the editable-pin map *)
(* ------------------------------------------------------------------ *)

Module OwnerMap.

(** What the component does to the map widget, to its own state and to its
    caller, in the order it does it. *)
Inductive call : Type :=
| SetLatLng (p : LatLng.t)
| SetView (p : LatLng.t) (zoom : Z)
| SetPinCoords (p : LatLng.t)
| OnPinChange (p : LatLng.t).

Record state : Type := {
  mounted : bool;          (* [mapObj.current && markerRef.current] *)
  marker : LatLng.t;       (* [markerRef.current.getLatLng()] *)
  center : LatLng.t;       (* centre of the view *)
  zoom : Z;                (* [mapObj.current.getZoom()] *)
  pinCoords : LatLng.t;    (* the React state shown under the map *)
  onPinChange : bool;      (* whether the caller passed a handler *)
  calls : list call        (* calls made so far, oldest first *)
}.

Definition default_lat : number := Fin (3187 # 10000).
Definition default_lng : number := Fin (32584 # 1000).

Definition at_ (la lo : number) : LatLng.t :=
  {| LatLng.lat := la; LatLng.lng := lo |}.

(** The component after its first render and mount effect, for initial
    coordinates that the widget accepts. *)
Definition mount (initialLat initialLng : number) (handler : bool) : state :=
  {| mounted := true;
     marker := at_ initialLat initialLng;
     center := at_ initialLat initialLng;
     zoom := 13;
     pinCoords := at_ initialLat initialLng;
     onPinChange := handler;
     calls := [] |}.

(** [updatePin(latlng)] *)
Definition updatePin (latlng : LatLng.t) (st : state) : state :=
  let coords :=
    at_ (parseFloat (toFixed 6 (LatLng.lat latlng)))
        (parseFloat (toFixed 6 (LatLng.lng latlng))) in
  {| mounted := mounted st;
     marker := marker st;
     center := center st;
     zoom := zoom st;
     pinCoords := coords;
     onPinChange := onPinChange st;
     calls := calls st ++ SetPinCoords coords
                :: (if onPinChange st then [OnPinChange coords] else []) |}.

(** The widget moves the marker under the pointer while it is dragged. *)
Definition dragged_to (p : LatLng.t) (st : state) : state :=
  {| mounted := mounted st; marker := p; center := center st;
     zoom := zoom st; pinCoords := pinCoords st;
     onPinChange := onPinChange st; calls := calls st |}.

(** The [dragend] handler: [updatePin(e.target.getLatLng())]. *)
Definition on_dragend (st : state) : state := updatePin (marker st) st.

(** The [click] handler of the map. *)
Definition on_click (latlng : LatLng.t) (st : state) : state :=
  updatePin latlng
    {| mounted := mounted st; marker := latlng; center := center st;
       zoom := zoom st; pinCoords := pinCoords st;
       onPinChange := onPinChange st;
       calls := calls st ++ [SetLatLng latlng] |}.

(** An interactive edit: a drag that ends at [p], or a tap at [p]. *)
Inductive edit : Type :=
| DragEnd (p : LatLng.t)
| Tap (p : LatLng.t).

Definition raw (e : edit) : LatLng.t :=
  match e with DragEnd p => p | Tap p => p end.

Definition handle (e : edit) (st : state) : state :=
  match e with
  | DragEnd p => on_dragend (dragged_to p st)
  | Tap p => on_click p st
  end.

(** The widget makes a position of a pair of numbers with [L.latLng],
    which throws on a pair with a [NaN]; [setLatLng] does so before it
    changes anything. *)
Definition refused (p : LatLng.t) : bool :=
  isNaN (LatLng.lat p) || isNaN (LatLng.lng p).

Section Leaflet.

(** Whether the widget carries out [setView(p, zoom)] on a position it
    accepts; if not, it throws. *)
Variable moves : LatLng.t -> Z -> bool.

(** The effect on [[initialLat, initialLng]]: run after a render in which
    one of the two props changed.  [None] stands for an exception, which
    ends the effect and with it the component. *)
Definition sync (initialLat initialLng : number) (st : state)
  : option state :=
  if mounted st then
    let currentPos := marker st in
    if strict_ne (LatLng.lat currentPos) initialLat
       || strict_ne (LatLng.lng currentPos) initialLng
    then
      if refused (at_ initialLat initialLng) then None
      else if moves (at_ initialLat initialLng) (zoom st)
      then
        Some
          {| mounted := mounted st;
             marker := at_ initialLat initialLng;
             center := at_ initialLat initialLng;
             zoom := zoom st;
             pinCoords := at_ initialLat initialLng;
             onPinChange := onPinChange st;
             calls := calls st
                      ++ [SetLatLng (at_ initialLat initialLng);
                          SetView (at_ initialLat initialLng) (zoom st);
                          SetPinCoords (at_ initialLat initialLng)] |}
      else None
    else Some st
  else Some st.

End Leaflet.

(** A widget that carries out every move. *)
Definition always (p : LatLng.t) (z : Z) : bool := true.

(** The tolerance the specification speaks of, in degrees. *)
Definition epsilon : Q := 1 # 1000000.

(** Both coordinates of [p] are finite and within [epsilon] of [q]'s. *)
Definition within_epsilon (p q : LatLng.t) : Prop :=
  match LatLng.lat p, LatLng.lng p, LatLng.lat q, LatLng.lng q with
  | Fin a, Fin b, Fin c, Fin d =>
      Qabs (a - c) <= epsilon /\ Qabs (b - d) <= epsilon
  | _, _, _, _ => False
  end.

(** A latitude one ten-millionth of a degree north of the default. *)
Definition nudged_lat : number := Fin (3187001 # 10000000).

(** The geocoded position of the specification's scenario. *)
Definition geocoded : LatLng.t := at_ (Fin (3103 # 10000)) (Fin (325816 # 10000)).

End OwnerMap.

(* ------------------------------------------------------------------ *)
(** ** DashboardPage.js: the address lookup *)
(* ------------------------------------------------------------------ *)

Module Dashboard.

Local Open Scope string_scope.

(** The part of the form the lookup reads and writes. *)
Record Form : Type := {
  address : string;
  city : string;
  lat : number;
  lng : number
}.

(** One result of the lookup service: coordinates as strings. *)
Record Hit : Type := { hit_lat : string; hit_lon : string }.

(** What [res.json()] resolves to. *)
Inductive Json : Type :=
| JNull
| JObject
| JArray (hits : list Hit).

(** What the network does with a request. *)
Inductive Reply : Type :=
| FetchRejects (err : string)
| JsonRejects (err : string)
| Body (data : Json).

Record World : Type := {
  form : Form;
  requests : list string;   (* queries sent, oldest first *)
  toasts : list string;     (* [showToast] messages *)
  console : list string     (* [console.error] lines *)
}.

(** How a statement ends. *)
Inductive completion (A : Type) : Type :=
| Normal (v : A)
| Throw (err : string).

Arguments Normal {A} v.
Arguments Throw {A} err.

(** Computations over the page: they change the world and end normally or
    by throwing. *)
Definition Eff (A : Type) : Type := World -> completion A * World.

Definition ret {A} (v : A) : Eff A := fun w => (Normal v, w).

Definition bind {A B} (m : Eff A) (k : A -> Eff B) : Eff B :=
  fun w =>
    match m w with
    | (Normal v, w') => k v w'
    | (Throw e, w') => (Throw e, w')
    end.

Notation "x <- m ;; k" := (bind m (fun x => k))
  (at level 61, m at next level, right associativity).
Notation "m ;;; k" := (bind m (fun _ => k))
  (at level 61, right associativity).

(** [try { body } catch (e) { handler(e) }] *)
Definition try_catch {A} (body : Eff A) (handler : string -> Eff A) : Eff A :=
  fun w =>
    match body w with
    | (Normal v, w') => (Normal v, w')
    | (Throw e, w') => handler e w'
    end.

Definition get_form : Eff Form := fun w => (Normal (form w), w).

(** [setForm(update)] *)
Definition setForm (update : Form -> Form) : Eff unit :=
  fun w =>
    (Normal tt,
     {| form := update (form w); requests := requests w;
        toasts := toasts w; console := console w |}).

Definition showToast (msg : string) : Eff unit :=
  fun w =>
    (Normal tt,
     {| form := form w; requests := requests w;
        toasts := toasts w ++ [msg]; console := console w |}).

Definition console_error (msg : string) : Eff unit :=
  fun w =>
    (Normal tt,
     {| form := form w; requests := requests w;
        toasts := toasts w; console := console w ++ [msg] |}).

Section Network.

(** The lookup service, by query. *)
Variable network : string -> Reply.

(** [await fetch(...)]: one request goes out; the promise may reject.  The
    log keeps the query before percent-encoding. *)
Definition fetch (q : string) : Eff Reply :=
  fun w =>
    let w' := {| form := form w; requests := requests w ++ [q];
                 toasts := toasts w; console := console w |} in
    match network q with
    | FetchRejects e => (Throw e, w')
    | r => (Normal r, w')
    end.

(** [await res.json()] *)
Definition json (res : Reply) : Eff Json :=
  match res with
  | Body data => ret data
  | JsonRejects e => fun w => (Throw e, w)
  | FetchRejects e => fun w => (Throw e, w)
  end.

(** [data && data[0]] *)
Definition first_hit (data : Json) : option Hit :=
  match data with
  | JArray (h :: _) => Some h
  | _ => None
  end.

Definition query_of (f : Form) : string :=
  address f ++ ", " ++ city f ++ ", Uganda".

(** [handleGeocode()] *)
Definition handleGeocode : Eff unit :=
  f <- get_form ;;
  if String.eqb (address f) EmptyString then ret tt
  else
    try_catch
      (res <- fetch (query_of f) ;;
       data <- json res ;;
       match first_hit data with
       | Some h =>
           setForm (fun p =>
             {| address := address p; city := city p;
                lat := parseFloat (hit_lat h);
                lng := parseFloat (hit_lon h) |}) ;;;
           showToast "📍 Map updated to address"
       | None => ret tt
       end)
      (fun e => console_error ("Geocode failed " ++ e)).

(** The lookup for the form in [w] fails: the request throws, or its
    result set is empty. *)
Definition lookup_throws (w : World) : Prop :=
  exists e, network (query_of (form w)) = FetchRejects e
            \/ network (query_of (form w)) = JsonRejects e.

Definition lookup_empty (w : World) : Prop :=
  exists data, network (query_of (form w)) = Body data
               /\ first_hit data = None.

Definition lookup_fails (w : World) : Prop :=
  lookup_throws w \/ lookup_empty w.

End Network.

(** A page with an address typed in and nothing sent yet. *)
Definition sample_world : World :=
  {| form := {| address := "Plot 4, Acacia Avenue"; city := "Kampala";
                lat := Fin (3187 # 10000); lng := Fin (32584 # 1000) |};
     requests := []; toasts := []; console := [] |}.

(** A service that finds nothing, and one that is unreachable. *)
Definition finds_nothing : string -> Reply := fun _ => Body (JArray []).

Definition unreachable : string -> Reply :=
  fun _ => FetchRejects "Failed to fetch".

End Dashboard.

(* ------------------------------------------------------------------ *)
(** ** HomePage.js: the minutes of a day at which a window is open *)
(* ------------------------------------------------------------------ *)

Module OpenMinutes.

(** The minutes of the day, 0 to 1439. *)
Definition day : list Z := map Z.of_nat (seq 0 1440).

(** The minutes of the first [n] of the day at which [isOpen] answers
    yes. *)
Definition open_minutes_upto (n : nat) (openTime closeTime : option string)
  : list Z :=
  filter (fun k => TimeWindow.isOpen openTime closeTime
                     (TimeWindow.date_of_minute k))
         (map Z.of_nat (seq 0 n)).

Definition open_minutes (openTime closeTime : option string) : list Z :=
  open_minutes_upto 1440 openTime closeTime.

End OpenMinutes.

(* ------------------------------------------------------------------ *)
(** ** useGeolocation.js: the state of the hook *)
(* ------------------------------------------------------------------ *)

Module GeoHook.

Local Open Scope string_scope.

Record state : Type := {
  coords : option LatLng.t;
  gpsLoading : bool;
  gpsError : option string;
  gpsActive : bool
}.

(** The four [useState] initial values. *)
Definition initial : state :=
  {| coords := None; gpsLoading := false; gpsError := None;
     gpsActive := false |}.

(** [messages[err.code] || "Unknown geolocation error."] *)
Definition error_message (code : Z) : string :=
  if (code =? 1)%Z
  then "Location permission denied. Please enable it in your browser settings."
  else if (code =? 2)%Z
  then "Unable to determine your location. Check your GPS or Wi-Fi."
  else if (code =? 3)%Z
  then "Location request timed out. Please try again."
  else "Unknown geolocation error.".

(** [requestGPS()], up to the call of [getCurrentPosition]; [supported]
    says whether [navigator.geolocation] exists. *)
Definition requestGPS (supported : bool) (st : state) : state :=
  if supported then
    {| coords := coords st; gpsLoading := true; gpsError := None;
       gpsActive := gpsActive st |}
  else
    {| coords := coords st; gpsLoading := gpsLoading st;
       gpsError := Some "Your browser does not support geolocation.";
       gpsActive := gpsActive st |}.

(** The success callback of [getCurrentPosition]. *)
Definition on_position (latitude longitude : number) (st : state) : state :=
  {| coords := Some {| LatLng.lat := latitude; LatLng.lng := longitude |};
     gpsLoading := false; gpsError := gpsError st; gpsActive := true |}.

(** The error callback of [getCurrentPosition]. *)
Definition on_error (code : Z) (st : state) : state :=
  {| coords := coords st; gpsLoading := false;
     gpsError := Some (error_message code); gpsActive := gpsActive st |}.

(** [clearGPS()] *)
Definition clearGPS (st : state) : state :=
  {| coords := None; gpsLoading := gpsLoading st; gpsError := None;
     gpsActive := false |}.

(** Whether a position is held. *)
Definition has_fix (st : state) : bool :=
  match coords st with Some _ => true | None => false end.

End GeoHook.

(* ------------------------------------------------------------------ *)
(** ** HomePage.js: the state of the page and what changes it *)
(* ------------------------------------------------------------------ *)

Module HomePageState.

Local Open Scope string_scope.

Record page : Type := {
  restaurants : list Listing;
  selectedDistrict : string;
  selectedCat : string;
  searchQuery : string;
  gps : GeoHook.state
}.

(** The page at its first render. *)
Definition initial : page :=
  {| restaurants := []; selectedDistrict := "All Districts";
     selectedCat := "all"; searchQuery := ""; gps := GeoHook.initial |}.

Inductive event : Type :=
| Loaded (docs : list Listing)       (* the fetch on mount resolves *)
| Search (q : string)                (* typing in the search bar *)
| PickDistrict (d : string)          (* a district chip *)
| PickCategory (c : string)          (* a category chip *)
| PressGPS                           (* the position button *)
| Fix (latitude longitude : number)  (* the browser delivers a position *)
| FixFailed (code : Z).              (* the browser reports an error *)

Definition with_gps (g : GeoHook.state) (pg : page) : page :=
  {| restaurants := restaurants pg; selectedDistrict := selectedDistrict pg;
     selectedCat := selectedCat pg; searchQuery := searchQuery pg;
     gps := g |}.

(** [handleGPS()] *)
Definition handleGPS (supported : bool) (pg : page) : page :=
  if GeoHook.gpsActive (gps pg)
  then with_gps (GeoHook.clearGPS (gps pg)) pg
  else with_gps (GeoHook.requestGPS supported (gps pg)) pg.

Definition step (supported : bool) (pg : page) (e : event) : page :=
  match e with
  | Loaded docs =>
      {| restaurants := docs; selectedDistrict := selectedDistrict pg;
         selectedCat := selectedCat pg; searchQuery := searchQuery pg;
         gps := gps pg |}
  | Search q =>
      {| restaurants := restaurants pg;
         selectedDistrict := selectedDistrict pg;
         selectedCat := selectedCat pg; searchQuery := q; gps := gps pg |}
  | PickDistrict d =>
      {| restaurants := restaurants pg; selectedDistrict := d;
         selectedCat := selectedCat pg; searchQuery := searchQuery pg;
         gps := GeoHook.clearGPS (gps pg) |}
  | PickCategory c =>
      {| restaurants := restaurants pg;
         selectedDistrict := selectedDistrict pg;
         selectedCat := c; searchQuery := searchQuery pg; gps := gps pg |}
  | PressGPS => handleGPS supported pg
  | Fix la lo => with_gps (GeoHook.on_position la lo (gps pg)) pg
  | FixFailed code => with_gps (GeoHook.on_error code (gps pg)) pg
  end.

Definition run (supported : bool) (es : list event) (pg : page) : page :=
  fold_left (step supported) es pg.

Definition criteria (pg : page) : Filter.Criteria :=
  {| Filter.selectedDistrict := selectedDistrict pg;
     Filter.selectedCat := selectedCat pg;
     Filter.searchQuery := searchQuery pg |}.

(** The listings the page shows. *)
Definition displayed (M : Geolocation.HostMath) (pg : page) : list Listing :=
  HomePage.displayed M (GeoHook.gpsActive (gps pg)) (GeoHook.coords (gps pg))
    (criteria pg) (restaurants pg).

(** Events that leave the position alone. *)
Definition quiet (e : event) : bool :=
  match e with
  | Loaded _ | Search _ | PickCategory _ | FixFailed _ => true
  | PickDistrict _ | PressGPS | Fix _ _ => false
  end.

Section Banner.

(** Reading [r.featured]. *)
Variable featured_flag : Listing -> bool.

(** [displayed.find((r) => r.featured) || displayed[0] || null] *)
Definition featured (shown : list Listing) : option Listing :=
  match find featured_flag shown with
  | Some r => Some r
  | None => match shown with
            | r :: _ => Some r
            | [] => None
            end
  end.

End Banner.

End HomePageState.

(* ------------------------------------------------------------------ *)
(** ** DashboardPage.js: the form and its map *)
(* ------------------------------------------------------------------ *)

(** The page renders [<OwnerMap initialLat={form.lat} initialLng={form.lng}
    onPinChange={...}/>]: the form feeds the map its props, and the map
    reports interactive edits back into the form. *)

Module PinnedForm.

(** The page and its map.  [props] holds the coordinates the map was last
    rendered with: the dependencies React compares before it runs the
    effect again. *)
Record page : Type := {
  world : Dashboard.World;
  pin : OwnerMap.state;
  props : LatLng.t
}.

Definition form_of (pg : page) : Dashboard.Form := Dashboard.form (world pg).

(** [setForm(p => ({ ...p, lat, lng }))], the page's [onPinChange]. *)
Definition pin_changed (p : LatLng.t) (w : Dashboard.World) : Dashboard.World :=
  {| Dashboard.form :=
       {| Dashboard.address := Dashboard.address (Dashboard.form w);
          Dashboard.city := Dashboard.city (Dashboard.form w);
          Dashboard.lat := LatLng.lat p;
          Dashboard.lng := LatLng.lng p |};
     Dashboard.requests := Dashboard.requests w;
     Dashboard.toasts := Dashboard.toasts w;
     Dashboard.console := Dashboard.console w |}.

(** The calls the map made between two of its states. *)
Definition new_calls (before after : OwnerMap.state) : list OwnerMap.call :=
  skipn (Datatypes.length (OwnerMap.calls before)) (OwnerMap.calls after).

(** The page's handler run on each [onPinChange] among the calls. *)
Definition deliver (cs : list OwnerMap.call) (w : Dashboard.World)
  : Dashboard.World :=
  fold_left
    (fun w c => match c with
                | OwnerMap.OnPinChange p => pin_changed p w
                | _ => w
                end)
    cs w.

(** [Object.is] on numbers, by which React compares a dependency with
    its value at the last render: unlike [===] it holds of [NaN] and
    [NaN].  It also tells [+0] from [-0], which the numbers of the model
    do not; what is said below of props that are the same is said of
    coordinates off zero. *)
Definition same_value (x y : number) : bool :=
  match x, y with
  | NaN, NaN => true
  | Inf s, Inf t => Bool.eqb s t
  | Fin a, Fin b => Qeq_bool a b
  | _, _ => false
  end.

Definition same_props (p q : LatLng.t) : bool :=
  same_value (LatLng.lat p) (LatLng.lat q)
  && same_value (LatLng.lng p) (LatLng.lng q).

Definition nonzero (x : number) : bool :=
  match x with
  | Fin q => negb (Qeq_bool q 0)
  | _ => true
  end.

(** Neither coordinate is a zero. *)
Definition off_zero (p : LatLng.t) : bool :=
  nonzero (LatLng.lat p) && nonzero (LatLng.lng p).

(** The coordinates of the form, handed to the map as [initialLat] and
    [initialLng]. *)
Definition form_props (pg : page) : LatLng.t :=
  OwnerMap.at_ (Dashboard.lat (form_of pg)) (Dashboard.lng (form_of pg)).

Section Leaflet.

Variable moves : LatLng.t -> Z -> bool.

(** A render with the form's coordinates as props.  The effect on
    [[initialLat, initialLng]] runs when one of the two is not the same
    value as at the last render, and is skipped otherwise; [None] stands
    for an exception in the effect. *)
Definition render (pg : page) : option page :=
  if same_props (props pg) (form_props pg) then Some pg
  else
    match OwnerMap.sync moves (Dashboard.lat (form_of pg))
                        (Dashboard.lng (form_of pg)) (pin pg) with
    | Some st => Some {| world := world pg; pin := st;
                         props := form_props pg |}
    | None => None
    end.

(** A drag or a tap on the map, and the render it brings about. *)
Definition edit (e : OwnerMap.edit) (pg : page) : option page :=
  render
    {| world := deliver (new_calls (pin pg) (OwnerMap.handle e (pin pg)))
                        (world pg);
       pin := OwnerMap.handle e (pin pg);
       props := props pg |}.

(** The button "Sync Map", and the render it brings about. *)
Definition geocode (network : string -> Dashboard.Reply) (pg : page)
  : option page :=
  render
    {| world := snd (Dashboard.handleGeocode network (world pg));
       pin := pin pg;
       props := props pg |}.

End Leaflet.

(** The page with its map mounted, after the first render. *)
Definition mount (w : Dashboard.World) : page :=
  {| world := w;
     pin := OwnerMap.mount (Dashboard.lat (Dashboard.form w))
                           (Dashboard.lng (Dashboard.form w)) true;
     props := OwnerMap.at_ (Dashboard.lat (Dashboard.form w))
                           (Dashboard.lng (Dashboard.form w)) |}.

(** A tap next to the default pin: both coordinates round to those of the
    sample form. *)
Definition near_tap : OwnerMap.edit :=
  OwnerMap.Tap (OwnerMap.at_ (Fin (31870004 # 100000000))
                             (Fin (325840001 # 10000000))).

End PinnedForm.

(* ------------------------------------------------------------------ *)
(** ** MapComponents.js: the diners' map *)
(* ------------------------------------------------------------------ *)

(** [DinerMap] keeps three references besides the map: the markers it put
    up for the listings, the marker of the visitor, and the map itself.
    Its effects are modelled on the layers of the map; the tile layer,
    which no effect touches after the mount, is left out. *)

Module DinerMap.

(** What a marker stands for. *)
Inductive purpose : Type :=
| Pin (r : Listing)        (* an amber pin; its click handler selects [r] *)
| You.                     (* the blue pin of the visitor *)

(** A marker object; [ident] is its identity as a JS object. *)
Record marker : Type := {
  ident : nat;
  latlng : LatLng.t;
  shows : purpose
}.

(** The last call that moved the view. *)
Inductive view : Type :=
| SetView (centre : LatLng.t) (zoom : Z)
| FitBounds (bounds : list LatLng.t).

Record leaflet : Type := {
  layers : list marker;
  viewport : view
}.

Record state : Type := {
  mapObj : option leaflet;       (* [mapObj.current] *)
  layerRef : list nat;           (* [layerRef.current] *)
  userPin : option nat;          (* [userPin.current] *)
  next : nat                     (* the identity of the next object made *)
}.

(** The references at the first render. *)
Definition unmounted : state :=
  {| mapObj := None; layerRef := []; userPin := None; next := 0%nat |}.

Definition kampala : LatLng.t :=
  {| LatLng.lat := Fin (3187 # 10000); LatLng.lng := Fin (32584 # 1000) |}.

(** The first effect: the map, once. *)
Definition mount (st : state) : state :=
  match mapObj st with
  | Some _ => st
  | None =>
      {| mapObj := Some {| layers := []; viewport := SetView kampala 12 |};
         layerRef := layerRef st; userPin := userPin st; next := next st |}
  end.

(** [map.removeLayer(l)] *)
Definition removeLayer (i : nat) (ls : list marker) : list marker :=
  filter (fun m => negb (Nat.eqb (ident m) i)) ls.

(** [l.setLatLng(p)], seen on the layers of the map. *)
Definition setLatLng (i : nat) (p : LatLng.t) (ls : list marker)
  : list marker :=
  map (fun m => if Nat.eqb (ident m) i
                then {| ident := ident m; latlng := p; shows := shows m |}
                else m)
      ls.

(** [[r.lat, r.lng]] *)
Definition position (r : Listing) : LatLng.t :=
  {| LatLng.lat := coordinate_number (lat r);
     LatLng.lng := coordinate_number (lng r) |}.

(** [r.lat == null || r.lng == null] *)
Definition unplaced (r : Listing) : bool :=
  match lat r with
  | Null | Missing => true
  | Degrees _ => match lng r with
                 | Null | Missing => true
                 | Degrees _ => false
                 end
  end.

(** [r.lat != null && r.lng != null] *)
Definition placed (r : Listing) : bool :=
  match lat r with
  | Null | Missing => false
  | Degrees _ => match lng r with
                 | Null | Missing => false
                 | Degrees _ => true
                 end
  end.

Section Leaflet.

(** What the library accepts: a pair of coordinates for a marker, and a
    move of the view.  A refusal is an exception, which ends the effect
    and with it the component. *)
Variable accepts : LatLng.t -> bool.
Variable moves : view -> bool.

(** [restaurants.forEach(...)] of the second effect, on the layers, on
    [layerRef.current] and on the next identity. *)
Fixpoint add_pins (rs : list Listing) (ls : list marker) (refs : list nat)
         (n : nat) : option (list marker * list nat * nat) :=
  match rs with
  | [] => Some (ls, refs, n)
  | r :: rs' =>
      if unplaced r then add_pins rs' ls refs n
      else if accepts (position r)
           then add_pins rs'
                  (ls ++ [{| ident := n; latlng := position r;
                             shows := Pin r |}])
                  (refs ++ [n]) (S n)
           else None
  end.

(** The second effect: the pins of the listings. *)
Definition update_pins (restaurants : list Listing) (st : state)
  : option state :=
  match mapObj st with
  | None => Some st
  | Some m =>
      let cleared :=
        fold_left (fun ls i => removeLayer i ls) (layerRef st) (layers m) in
      match add_pins restaurants cleared [] (next st) with
      | None => None
      | Some (ls, refs, n) =>
          let bounds := map position (filter placed restaurants) in
          let fit := Nat.ltb 0 (Datatypes.length restaurants)
                     && negb (Nat.eqb (Datatypes.length bounds) 0) in
          if fit && negb (moves (FitBounds bounds)) then None
          else Some {| mapObj :=
                         Some {| layers := ls;
                                 viewport := if fit then FitBounds bounds
                                             else viewport m |};
                       layerRef := refs; userPin := userPin st; next := n |}
      end
  end.

(** The third effect: the pin of the visitor. *)
Definition update_user (userCoords : option LatLng.t) (st : state)
  : option state :=
  match mapObj st with
  | None => Some st
  | Some m =>
      match userCoords with
      | Some c =>
          if accepts c && moves (SetView c 14)
          then match userPin st with
               | Some i =>
                   Some {| mapObj :=
                             Some {| layers := setLatLng i c (layers m);
                                     viewport := SetView c 14 |};
                           layerRef := layerRef st; userPin := Some i;
                           next := next st |}
               | None =>
                   Some {| mapObj :=
                             Some {| layers :=
                                       layers m
                                       ++ [{| ident := next st; latlng := c;
                                              shows := You |}];
                                     viewport := SetView c 14 |};
                           layerRef := layerRef st;
                           userPin := Some (next st);
                           next := S (next st) |}
               end
          else None
      | None =>
          match userPin st with
          | Some i =>
              Some {| mapObj := Some {| layers := removeLayer i (layers m);
                                        viewport := viewport m |};
                      layerRef := layerRef st; userPin := None;
                      next := next st |}
          | None => Some st
          end
      end
  end.

(** An effect that React runs after a render: the second when the list
    of listings (or the handler) changed, the third when the position
    changed. *)
Inductive effect : Type :=
| Pins (restaurants : list Listing)
| User (userCoords : option LatLng.t).

Definition run_effect (e : effect) (st : state) : option state :=
  match e with
  | Pins rs => update_pins rs st
  | User c => update_user c st
  end.

Fixpoint run (es : list effect) (st : state) : option state :=
  match es with
  | [] => Some st
  | e :: es' => match run_effect e st with
                | Some st' => run es' st'
                | None => None
                end
  end.

End Leaflet.

(** The props of the latest effects, from the props of the first
    render. *)
Definition latest_pins (rs : list Listing) (es : list effect)
  : list Listing :=
  fold_left (fun acc e => match e with Pins rs' => rs' | User _ => acc end)
            es rs.

Definition latest_user (c : option LatLng.t) (es : list effect)
  : option LatLng.t :=
  fold_left (fun acc e => match e with User c' => c' | Pins _ => acc end)
            es c.

Definition is_pin (m : marker) : bool :=
  match shows m with Pin _ => true | You => false end.

Definition is_you (m : marker) : bool := negb (is_pin m).

(** What the visitor sees: the amber pins, each with the listing a tap
    selects, and the blue pins. *)
Definition pins_of (ls : list marker) : list (LatLng.t * Listing) :=
  flat_map (fun m => match shows m with
                     | Pin r => [(latlng m, r)]
                     | You => []
                     end)
           ls.

Definition pins_shown (st : state) : list (LatLng.t * Listing) :=
  match mapObj st with
  | Some m => pins_of (layers m)
  | None => []
  end.

Definition you_shown (st : state) : list LatLng.t :=
  match mapObj st with
  | Some m => map latlng (filter is_you (layers m))
  | None => []
  end.

(** A tap on the layer [i]: [onSelectRestaurant && onSelectRestaurant(r)]
    for an amber pin, the popup alone for the blue one. *)
Definition click (handler : bool) (i : nat) (st : state) : option Listing :=
  match mapObj st with
  | None => None
  | Some m =>
      match find (fun x => Nat.eqb (ident x) i) (layers m) with
      | Some x => match shows x with
                  | Pin r => if handler then Some r else None
                  | You => None
                  end
      | None => None
      end
  end.

(** The markers that the second effect makes for listings that all have
    both coordinates, from the identity [n] on. *)
Fixpoint pins_from (n : nat) (rs : list Listing) : list marker :=
  match rs with
  | [] => []
  | r :: rs' =>
      {| ident := n; latlng := position r; shows := Pin r |}
      :: pins_from (S n) rs'
  end.

(** The layers [ls] on the map, against the references and the props of
    the latest effects. *)
Record consistent (R : list Listing) (U : option LatLng.t) (st : state)
       (ls : list marker) : Prop := {
  below : Forall (fun i => (i < next st)%nat) (map ident ls);
  distinct : NoDup (map ident ls);
  refs_are_pins : layerRef st = map ident (filter is_pin ls);
  ref_is_you : map ident (filter is_you ls)
               = match userPin st with Some i => [i] | None => [] end;
  pins_latest : pins_of ls
                = map (fun r => (position r, r)) (filter placed R);
  you_latest : map latlng (filter is_you ls)
               = match U with Some c => [c] | None => [] end
}.

Definition settled (R : list Listing) (U : option LatLng.t) (st : state)
  : Prop :=
  exists m, mapObj st = Some m /\ consistent R U st (layers m).

(** Two listings of which one has a pin, then a position, then another
    list, on a map that refuses [NaN] alone. *)
Definition sample_effects : list effect :=
  [Pins [Geolocation.listing_A; Geolocation.listing_C];
   User (Some Geolocation.visitor);
   Pins [Geolocation.listing_B]].

(** A library that refuses [NaN] alone. *)
Definition no_NaN (p : LatLng.t) : bool :=
  negb (isNaN (LatLng.lat p)) && negb (isNaN (LatLng.lng p)).

End DinerMap.

(* ------------------------------------------------------------------ *)
(** ** DashboardPage.js: the menu in the form and in the saved document *)
(* ------------------------------------------------------------------ *)

Module Menu.

Local Open Scope string_scope.
Local Open Scope Z_scope.

(** The price of a row of the form: typed into its input, loaded from a
    stored document, or absent. *)
Inductive price_value : Type :=
| Typed (s : string)
| Stored (n : number)
| Absent.

Record Item : Type := {
  name : string;
  price : price_value;
  image : option string
}.

Record Section_ : Type := {
  category : string;
  items : list Item
}.

(** The rows of the document that [handleSave] writes. *)
Record SavedItem : Type := {
  saved_name : string;
  saved_price : number;
  saved_image : string
}.

Record SavedSection : Type := {
  saved_category : string;
  saved_items : list SavedItem
}.

(** [{ name: "", price: "", image: "" }] *)
Definition blank : Item :=
  {| name := ""; price := Typed ""; image := Some "" |}.

(** [array.map((x, i) => f(i, x))], counting from [k]. *)
Fixpoint map_from (A B : Type) (k : nat) (f : nat -> A -> B) (l : list A)
  : list B :=
  match l with
  | [] => []
  | x :: r => f k x :: map_from (S k) f r
  end.

(** [addSection()] *)
Definition addSection (menu : list Section_) : list Section_ :=
  (menu ++ [{| category := "New Section"; items := [blank] |}])%list.

(** [addItem(si)] *)
Definition addItem (si : nat) (menu : list Section_) : list Section_ :=
  map_from 0
    (fun i s => if Nat.eqb i si
                then {| category := category s;
                        items := (items s ++ [blank])%list |}
                else s)
    menu.

(** The update of the form after the upload of a photo for the row [ii]
    of the section [si]. *)
Definition set_image (si ii : nat) (url : string) (menu : list Section_)
  : list Section_ :=
  map_from 0
    (fun idx s =>
       if Nat.eqb idx si
       then {| category := category s;
               items :=
                 map_from 0
                   (fun jdx it =>
                      if Nat.eqb jdx ii
                      then {| name := name it; price := price it;
                              image := Some url |}
                      else it)
                   (items s) |}
       else s)
    menu.

(** An optional sign, and what follows it. *)
Definition signed_rest (t : string) : bool * string :=
  match t with
  | String "-" r => (true, r)
  | String "+" r => (false, r)
  | _ => (false, t)
  end.

(** From [2^1024 - 2^970] on, the double nearest to an integer is
    infinite. *)
Definition overflows (v : Z) : bool := 2 ^ 1024 - 2 ^ 970 <=? v.

(** [parseInt(s, 10)] on a string: white space, a sign, then the longest
    run of digits; [NaN] without a digit, an infinity when the digits
    denote a number beyond the doubles. *)
Definition parseInt10 (s : string) : number :=
  let '(neg, r) := signed_rest (trimStart s) in
  let '(v, n, _) := digits r 0 0 in
  if n =? 0 then NaN
  else if overflows v then Inf neg
  else ofZ (if neg then - v else v).

(** No digit follows the white space and the sign at the head of [s]. *)
Definition digitless (s : string) : bool :=
  let '(_, r) := signed_rest (trimStart s) in
  let '(_, n, _) := digits r 0 0 in
  n =? 0.

(** [v || 0] on a number. *)
Definition or_zero (v : number) : number :=
  match v with
  | NaN => ofZ 0
  | Fin q => if Qeq_bool q 0 then ofZ 0 else v
  | Inf _ => v
  end.

Section Host.

(** The host's conversion of a number to a string. *)
Variable Number_toString : number -> string.

(** [parseInt] converts its argument to a string first. *)
Definition price_string (p : price_value) : string :=
  match p with
  | Typed s => s
  | Stored n => Number_toString n
  | Absent => "undefined"
  end.

(** [{ name: i.name, price: parseInt(i.price, 10) || 0,
       image: i.image || "" }] *)
Definition save_item (i : Item) : SavedItem :=
  {| saved_name := name i;
     saved_price := or_zero (parseInt10 (price_string (price i)));
     saved_image := match image i with Some u => u | None => "" end |}.

(** [i => i.name] as a test *)
Definition named (i : Item) : bool := negb (String.eqb (name i) "").

Definition save_section (s : Section_) : SavedSection :=
  {| saved_category := category s;
     saved_items := map save_item (filter named (items s)) |}.

(** The [menu] of the payload of [handleSave]. *)
Definition payload_menu (menu : list Section_) : list SavedSection :=
  filter (fun s => Nat.ltb 0 (Datatypes.length (saved_items s)))
         (map save_section menu).

End Host.

(** The payload without its photos. *)
Definition without_images (menu : list SavedSection)
  : list (string * list (string * number)) :=
  map (fun s => (saved_category s,
                 map (fun i => (saved_name i, saved_price i))
                     (saved_items s)))
      menu.

(** The category, names and prices of a saved section. *)
Definition rows (s : SavedSection) : string * list (string * number) :=
  (saved_category s,
   map (fun i => (saved_name i, saved_price i)) (saved_items s)).

End Menu.

(* ================================================================== *)
(** * Properties *)
(* ================================================================== *)

(* ------------------------------------------------------------------ *)
(** ** Printing a number with [toFixed] and reading it back *)
(* ------------------------------------------------------------------ *)

Module Conversions.

Local Open Scope string_scope.
Local Open Scope Z_scope.

Ltac each_digit d :=
  let H := fresh "Hd" in
  assert (H : d = 0 \/ d = 1 \/ d = 2 \/ d = 3 \/ d = 4 \/ d = 5 \/ d = 6
              \/ d = 7 \/ d = 8 \/ d = 9) by lia;
  repeat (destruct H as [H | H]; [subst d | ]); [ .. | subst d ].

Lemma digit_of_digit_char (d : Z) :
  0 <= d < 10 -> digit_of (digit_char d) = Some d.
Proof. intros H. each_digit d; reflexivity. Qed.

Lemma digits_cons_digit (d : Z) (r : string) (acc n : Z) :
  0 <= d < 10 ->
  digits (String (digit_char d) r) acc n = digits r (10 * acc + d) (n + 1).
Proof.
  intros H. cbn [digits]. now rewrite digit_of_digit_char.
Qed.

Lemma dec_digits_app (fuel : nat) :
  forall n tail rest,
    dec_digits fuel n tail ++ rest = dec_digits fuel n (tail ++ rest).
Proof.
  induction fuel as [| f IH]; intros n tail rest; cbn [dec_digits].
  - reflexivity.
  - destruct (n / 10 =? 0); [reflexivity | apply IH].
Qed.

Lemma dec_digits_head (fuel : nat) :
  forall n tail,
    0 <= n ->
    exists d r, 0 <= d < 10 /\ dec_digits (S fuel) n tail = String (digit_char d) r.
Proof.
  induction fuel as [| f IH]; intros n tail Hn.
  - exists (n mod 10), tail. split; [apply Z.mod_pos_bound; lia |].
    cbn [dec_digits]. now destruct (n / 10 =? 0).
  - change (dec_digits (S (S f)) n tail)
      with (if n / 10 =? 0 then String (digit_char (n mod 10)) tail
            else dec_digits (S f) (n / 10) (String (digit_char (n mod 10)) tail)).
    destruct (n / 10 =? 0).
    + exists (n mod 10), tail. split; [apply Z.mod_pos_bound; lia | reflexivity].
    + apply IH. apply Z.div_pos; lia.
Qed.

Lemma digits_dec_digits (fuel : nat) :
  forall n tail acc k,
    0 <= n < 2 ^ Z.of_nat (S fuel) ->
    exists len,
      0 < len /\
      digits (dec_digits (S fuel) n tail) acc k
      = digits tail (acc * 10 ^ len + n) (k + len).
Proof.
  induction fuel as [| f IH]; intros n tail acc k Hn.
  - change (2 ^ Z.of_nat 1) with 2 in Hn.
    exists 1. split; [lia |].
    assert (E : n / 10 = 0) by (apply Z.div_small; lia).
    cbn [dec_digits]. rewrite E. cbn [Z.eqb].
    rewrite digits_cons_digit by (apply Z.mod_pos_bound; lia).
    rewrite Z.mod_small by lia. f_equal; lia.
  - change (dec_digits (S (S f)) n tail)
      with (if n / 10 =? 0 then String (digit_char (n mod 10)) tail
            else dec_digits (S f) (n / 10) (String (digit_char (n mod 10)) tail)).
    pose proof (Z.div_mod n 10 ltac:(lia)) as Hdm.
    pose proof (Z.mod_pos_bound n 10 ltac:(lia)) as Hm.
    destruct (n / 10 =? 0) eqn:E.
    + apply Z.eqb_eq in E. exists 1. split; [lia |].
      rewrite digits_cons_digit by assumption. f_equal; lia.
    + assert (Hq : 0 <= n / 10 < 2 ^ Z.of_nat (S f)).
      { split; [apply Z.div_pos; lia |].
        apply Z.div_lt_upper_bound; [lia |].
        rewrite (Nat2Z.inj_succ (S f)), Z.pow_succ_r in Hn by lia.
        assert (0 < 2 ^ Z.of_nat (S f)) by (apply Z.pow_pos_nonneg; lia).
        lia. }
      destruct (IH (n / 10) (String (digit_char (n mod 10)) tail) acc k Hq)
        as (len & Hlen & Heq).
      exists (len + 1). split; [lia |].
      rewrite Heq, digits_cons_digit by assumption.
      rewrite Z.pow_add_r, Z.pow_1_r by lia. f_equal; lia.
Qed.

Lemma digits_pad_digits (k : nat) :
  forall n tail acc c,
    0 <= n < 10 ^ Z.of_nat k ->
    digits (pad_digits k n tail) acc c
    = digits tail (acc * 10 ^ Z.of_nat k + n) (c + Z.of_nat k).
Proof.
  induction k as [| k IH]; intros n tail acc c Hn.
  - change (10 ^ Z.of_nat 0) with 1 in *. cbn [pad_digits].
    f_equal; lia.
  - cbn [pad_digits].
    rewrite Nat2Z.inj_succ, Z.pow_succ_r in * by lia.
    pose proof (Z.div_mod n 10 ltac:(lia)) as Hdm.
    pose proof (Z.mod_pos_bound n 10 ltac:(lia)) as Hm.
    rewrite IH.
    + rewrite digits_cons_digit by assumption. f_equal; lia.
    + split; [apply Z.div_pos; lia |].
      apply Z.div_lt_upper_bound; lia.
Qed.

Lemma int_string_fuel (n : Z) :
  0 <= n -> 0 <= n < 2 ^ Z.of_nat (S (Z.to_nat (Z.log2 n))).
Proof.
  intros Hn. split; [assumption |].
  rewrite Nat2Z.inj_succ, Z2Nat.id by apply Z.log2_nonneg.
  destruct (Z.eq_dec n 0) as [-> | Hnz]; [reflexivity |].
  apply Z.log2_spec; lia.
Qed.

Lemma trimStart_digit (d : Z) (r : string) :
  0 <= d < 10 -> trimStart (String (digit_char d) r) = String (digit_char d) r.
Proof. intros H. each_digit d; reflexivity. Qed.

Lemma scan_signed_digit (d : Z) (r : string) :
  0 <= d < 10 ->
  scan_signed (String (digit_char d) r)
  = match scan_decimal (String (digit_char d) r) with
    | Some (q, rest) => Some (Fin q, rest)
    | None => None
    end.
Proof. intros H. each_digit d; reflexivity. Qed.

Lemma scan_signed_minus_digit (d : Z) (r : string) :
  0 <= d < 10 ->
  scan_signed (String "-" (String (digit_char d) r))
  = match scan_decimal (String (digit_char d) r) with
    | Some (q, rest) => Some (Fin (Qred (- q)), rest)
    | None => None
    end.
Proof. intros H. each_digit d; reflexivity. Qed.

Lemma fixed_digits_nonneg (d : nat) (q : Q) :
  (0 <= q)%Q -> 0 <= fixed_digits d q.
Proof.
  intros Hq. unfold fixed_digits.
  change 0 with (Qfloor 0). apply Qfloor_resp_le.
  assert (0 <= inject_Z (10 ^ Z.of_nat d))%Q.
  { change 0%Q with (inject_Z 0). rewrite <- Zle_Qle.
    apply Z.pow_nonneg. lia. }
  assert (0 <= q * inject_Z (10 ^ Z.of_nat d))%Q by now apply Qmult_le_0_compat.
  lra.
Qed.

Lemma scan_decimal_fixed_abs (d : nat) (q : Q) :
  (0 <= q)%Q ->
  scan_decimal (fixed_abs d q)
  = Some (Qred (inject_Z (fixed_digits d q) * pow10 (- Z.of_nat d)), "").
Proof.
  intros Hq. pose proof (fixed_digits_nonneg d Hq) as Hn.
  unfold fixed_abs. set (n := fixed_digits d q) in *.
  destruct d as [| d'].
  - unfold scan_decimal, int_string.
    destruct (digits_dec_digits (Z.to_nat (Z.log2 n)) "" 0 0 (int_string_fuel Hn))
      as (len & Hlen & E).
    rewrite E. cbn [digits].
    replace (0 + len =? 0) with false by (symmetry; apply Z.eqb_neq; lia).
    cbn [andb scan_exponent].
    replace ((0 * 10 ^ len + n) * 10 ^ 0 + 0) with n
      by (rewrite Z.pow_0_r; lia).
    reflexivity.
  - set (p := 10 ^ Z.of_nat (S d')).
    assert (Hp : 0 < p) by (apply Z.pow_pos_nonneg; lia).
    pose proof (Z.div_mod n p ltac:(lia)) as Hdm.
    pose proof (Z.mod_pos_bound n p Hp) as Hm.
    assert (Hi : 0 <= n / p) by (apply Z.div_pos; lia).
    unfold scan_decimal, int_string.
    rewrite dec_digits_app. cbn [append].
    destruct (digits_dec_digits (Z.to_nat (Z.log2 (n / p)))
                (String "." (pad_digits (S d') (n mod p) "")) 0 0
                (int_string_fuel Hi))
      as (len & Hlen & E).
    rewrite E. cbn [digits]. change (digit_of ".") with (@None Z).
    cbv beta iota.
    rewrite (digits_pad_digits (S d') "" 0 0 Hm). cbn [digits].
    replace (0 + len =? 0) with false by (symmetry; apply Z.eqb_neq; lia).
    cbn [andb scan_exponent].
    replace (0 - (0 + Z.of_nat (S d'))) with (- Z.of_nat (S d')) by lia.
    replace ((0 * 10 ^ len + n / p) * 10 ^ (0 + Z.of_nat (S d'))
             + (0 * 10 ^ Z.of_nat (S d') + n mod p)) with n
      by (change (0 + Z.of_nat (S d')) with (Z.of_nat (S d')); fold p; lia).
    reflexivity.
Qed.

Lemma int_string_head (n : Z) (rest : string) :
  0 <= n ->
  exists d r, 0 <= d < 10 /\ int_string n ++ rest = String (digit_char d) r.
Proof.
  intros Hn. unfold int_string. rewrite dec_digits_app.
  now apply dec_digits_head.
Qed.

Lemma fixed_abs_head (d : nat) (q : Q) :
  (0 <= q)%Q ->
  exists c r, 0 <= c < 10 /\ fixed_abs d q = String (digit_char c) r.
Proof.
  intros Hq. pose proof (fixed_digits_nonneg d Hq) as Hn.
  unfold fixed_abs. destruct d as [| d'].
  - destruct (int_string_head "" Hn) as (c & r & Hc & E).
    exists c, r. split; [assumption |].
    rewrite <- E. unfold int_string. rewrite dec_digits_app. reflexivity.
  - apply int_string_head. apply Z.div_pos; [assumption |].
    apply Z.pow_pos_nonneg; lia.
Qed.

Lemma Qltb_true (a b : Q) : Qltb a b = true <-> (a < b)%Q.
Proof.
  unfold Qltb. rewrite negb_true_iff, <- not_true_iff_false, Qle_bool_iff.
  split; [apply Qnot_le_lt | apply Qlt_not_le].
Qed.

Lemma Qltb_false (a b : Q) : Qltb a b = false <-> (b <= a)%Q.
Proof.
  unfold Qltb. rewrite negb_false_iff, Qle_bool_iff. reflexivity.
Qed.

(** Reading back what [toFixed] printed gives the rounded decimal. *)
Lemma parseFloat_toFixed (d : nat) (q : Q) :
  parseFloat (toFixed d (Fin q)) = Fin (round_dec d q).
Proof.
  unfold parseFloat, toFixed, round_dec.
  destruct (Qltb q 0) eqn:Hs.
  - apply Qltb_true in Hs.
    assert (Hq : (0 <= - q)%Q) by lra.
    destruct (fixed_abs_head d Hq) as (c & r & Hc & E).
    change (trimStart (String "-" (fixed_abs d (- q)%Q)))
      with (String "-" (fixed_abs d (- q)%Q)).
    rewrite E, scan_signed_minus_digit by assumption.
    rewrite <- E, scan_decimal_fixed_abs by assumption. reflexivity.
  - apply Qltb_false in Hs.
    destruct (fixed_abs_head d Hs) as (c & r & Hc & E).
    rewrite E, trimStart_digit, scan_signed_digit by assumption.
    rewrite <- E, scan_decimal_fixed_abs by assumption. reflexivity.
Qed.

Lemma parseFloat_toFixed_NaN (d : nat) : parseFloat (toFixed d NaN) = NaN.
Proof. reflexivity. Qed.

Lemma pow10_neg (d : nat) :
  (pow10 (- Z.of_nat d) == / inject_Z (10 ^ Z.of_nat d))%Q.
Proof.
  unfold pow10. destruct d as [| d'].
  - reflexivity.
  - replace (0 <=? - Z.of_nat (S d')) with false
      by (symmetry; apply Z.leb_gt; lia).
    now rewrite Z.opp_involutive.
Qed.

Lemma ten_pow_pos (d : nat) : (0 < inject_Z (10 ^ Z.of_nat d))%Q.
Proof.
  change 0%Q with (inject_Z 0). rewrite <- Zlt_Qlt.
  apply Z.pow_pos_nonneg; lia.
Qed.

(** The rounded value is a multiple of [10^-d]. *)
Lemma round_dec_grid (d : nat) (q : Q) :
  exists n : Z, (round_dec d q == inject_Z n / inject_Z (10 ^ Z.of_nat d))%Q.
Proof.
  unfold round_dec. destruct (Qltb q 0).
  - exists (- fixed_digits d (- q)).
    rewrite !Qred_correct, pow10_neg, inject_Z_opp. unfold Qdiv. ring.
  - exists (fixed_digits d q).
    rewrite Qred_correct, pow10_neg. reflexivity.
Qed.

(** The rounded value is within half a unit of the last decimal. *)
Lemma round_dec_close (d : nat) (q : Q) :
  (Qabs (round_dec d q - q) <= (1 # 2) / inject_Z (10 ^ Z.of_nat d))%Q.
Proof.
  pose proof (ten_pow_pos d) as Hp.
  set (p := inject_Z (10 ^ Z.of_nat d)) in *.
  assert (Hfl : forall x : Q,
    (Qabs (inject_Z (fixed_digits d x) * / p - x) <= (1 # 2) / p)%Q).
  { intros x. unfold fixed_digits. fold p.
    pose proof (Qfloor_le (x * p + (1 # 2))) as Hlo.
    pose proof (Qlt_floor (x * p + (1 # 2))) as Hhi.
    rewrite inject_Z_plus in Hhi.
    set (f := inject_Z (Qfloor (x * p + (1 # 2)))) in *.
    assert (Hnz : ~ (p == 0)%Q) by (intros Hz; rewrite Hz in Hp; lra).
    apply Qabs_Qle_condition. split.
    - apply (Qmult_le_r _ _ p Hp).
      setoid_replace (- ((1 # 2) / p) * p)%Q with (- (1 # 2))%Q
        by (field; assumption).
      setoid_replace ((f * / p - x) * p)%Q with (f - x * p)%Q
        by (field; assumption).
      change (inject_Z 1) with 1%Q in Hhi. lra.
    - apply (Qmult_le_r _ _ p Hp).
      setoid_replace ((1 # 2) / p * p)%Q with (1 # 2)%Q
        by (field; assumption).
      setoid_replace ((f * / p - x) * p)%Q with (f - x * p)%Q
        by (field; assumption).
      lra. }
  unfold round_dec. destruct (Qltb q 0).
  - rewrite !Qred_correct, pow10_neg. fold p.
    specialize (Hfl (- q)%Q).
    setoid_replace (- (inject_Z (fixed_digits d (- q)) * / p) - q)%Q
      with (- (inject_Z (fixed_digits d (- q)) * / p - - q))%Q by ring.
    now rewrite Qabs_opp.
  - rewrite Qred_correct, pow10_neg. fold p. apply Hfl.
Qed.

End Conversions.

(* ------------------------------------------------------------------ *)
(** ** [NaN] absorbs arithmetic and fails comparisons *)
(* ------------------------------------------------------------------ *)

Module NumberFacts.

Lemma nadd_NaN_r (x : number) : nadd x NaN = NaN.
Proof. now destruct x. Qed.

Lemma nmul_NaN_r (x : number) : nmul x NaN = NaN.
Proof. now destruct x. Qed.

Lemma nlt_NaN_r (x : number) : nlt x NaN = false.
Proof. now destruct x. Qed.

Lemma nge_NaN_r (x : number) : nge x NaN = false.
Proof. now destruct x. Qed.

Lemma nge_Fin (a b : Q) : nge (Fin a) (Fin b) = true <-> (b <= a)%Q.
Proof.
  cbn [nge nlt]. rewrite negb_true_iff. apply Conversions.Qltb_false.
Qed.

Lemma nge_trans (a b c : number) :
  nge b a = true -> nge c b = true -> nge c a = true.
Proof.
  destruct a as [| [] | p], b as [| [] | q], c as [| [] | r];
    try (cbn [nge nlt negb andb]; intros; (discriminate || reflexivity)).
  rewrite !nge_Fin. intros. lra.
Qed.

End NumberFacts.

(* ------------------------------------------------------------------ *)
(** ** Arithmetic on integer-valued numbers *)
(* ------------------------------------------------------------------ *)

Module IntValued.

Local Open Scope Z_scope.

Lemma of_ofZ (z : Z) : int_valued (ofZ z) z.
Proof. exists (inject_Z z). split; reflexivity. Qed.

Lemma of_nadd (x y : number) (a b : Z) :
  int_valued x a -> int_valued y b -> int_valued (nadd x y) (a + b).
Proof.
  intros (p & -> & Hp) (q & -> & Hq). exists (p + q)%Q.
  split; [reflexivity |]. now rewrite Hp, Hq, inject_Z_plus.
Qed.

Lemma of_nsub (x y : number) (a b : Z) :
  int_valued x a -> int_valued y b -> int_valued (nsub x y) (a - b).
Proof.
  intros (p & -> & Hp) (q & -> & Hq). exists (p + - q)%Q.
  split; [reflexivity |].
  rewrite Hp, Hq. unfold Z.sub. now rewrite inject_Z_plus, inject_Z_opp.
Qed.

Lemma of_nmul (x y : number) (a b : Z) :
  int_valued x a -> int_valued y b -> int_valued (nmul x y) (a * b).
Proof.
  intros (p & -> & Hp) (q & -> & Hq). exists (p * q)%Q.
  split; [reflexivity |]. now rewrite Hp, Hq, inject_Z_mult.
Qed.

Lemma Qltb_inject (p q : Q) (a b : Z) :
  (p == inject_Z a)%Q -> (q == inject_Z b)%Q -> Qltb p q = (a <? b).
Proof.
  intros Hp Hq. destruct (a <? b) eqn:E.
  - apply Conversions.Qltb_true. rewrite Hp, Hq, <- Zlt_Qlt.
    now apply Z.ltb_lt.
  - apply Conversions.Qltb_false. rewrite Hp, Hq, <- Zle_Qle.
    now apply Z.ltb_ge.
Qed.

Lemma nlt_int (x y : number) (a b : Z) :
  int_valued x a -> int_valued y b -> nlt x y = (a <? b).
Proof.
  intros (p & -> & Hp) (q & -> & Hq). now apply Qltb_inject.
Qed.

Lemma nge_int (x y : number) (a b : Z) :
  int_valued x a -> int_valued y b -> nge x y = (b <=? a).
Proof.
  intros (p & -> & Hp) (q & -> & Hq). cbn [nge nlt].
  rewrite (Qltb_inject Hp Hq). apply eq_sym, Z.leb_antisym.
Qed.

End IntValued.

(* ------------------------------------------------------------------ *)
(** ** Opening hours *)
(* ------------------------------------------------------------------ *)

Module TimeWindowFacts.

Import TimeWindow.

Local Open Scope string_scope.
Local Open Scope Z_scope.

Lemma Number_two_digits (n : Z) :
  0 <= n < 100 -> Number (two_digits n) = ofZ n.
Proof.
  intros Hn.
  assert (H : forall k : nat,
             (k < 100)%nat -> Number (two_digits (Z.of_nat k)) = ofZ (Z.of_nat k)).
  { intros k Hk.
    do 100 (destruct k as [| k]; [vm_compute; reflexivity |]). lia. }
  rewrite <- (Z2Nat.id n) by lia. apply H. lia.
Qed.

Lemma digit_char_not_colon (d : Z) :
  0 <= d < 10 -> Ascii.eqb (digit_char d) ":" = false.
Proof. intros H. Conversions.each_digit d; reflexivity. Qed.

Lemma split_hhmm (h m : Z) :
  0 <= h < 100 -> 0 <= m < 100 ->
  split ":" (hhmm h m) = [two_digits h; two_digits m].
Proof.
  intros Hh Hm. unfold hhmm, two_digits. cbn [append split].
  rewrite !digit_char_not_colon; try (apply Z.mod_pos_bound; lia);
    try (split; [apply Z.div_pos; lia | apply Z.div_lt_upper_bound; lia]).
  reflexivity.
Qed.

Lemma time_parts_hhmm (h m : Z) :
  0 <= h < 24 -> 0 <= m < 60 ->
  time_parts (Some (hhmm h m)) = [ofZ h; ofZ m].
Proof.
  intros Hh Hm. unfold time_parts.
  rewrite split_hhmm by lia. cbn [map].
  now rewrite !Number_two_digits by lia.
Qed.

Lemma minutes_of_parts (h m : Z) :
  int_valued (nadd (nmul (ofZ h) (ofZ 60)) (ofZ m)) (minutes h m).
Proof.
  unfold minutes.
  apply IntValued.of_nadd; [apply IntValued.of_nmul |]; apply IntValued.of_ofZ.
Qed.

Lemma currentMinutes_of_minute (now : Z) :
  int_valued
    (nadd (nmul (ofZ (getHours (date_of_minute now))) (ofZ 60))
          (ofZ (getMinutes (date_of_minute now))))
    now.
Proof.
  cbn [date_of_minute getHours getMinutes].
  replace now with (minutes (now / 60) (now mod 60)) at 3
    by (unfold minutes; pose proof (Z.div_mod now 60); lia).
  apply minutes_of_parts.
Qed.

(** On well-formed bounds [isOpen] is the source's decision tree over the
    three minute counts. *)
Lemma isOpen_hhmm (oh om ch cm now : Z) :
  0 <= oh < 24 -> 0 <= om < 60 -> 0 <= ch < 24 -> 0 <= cm < 60 ->
  isOpen (Some (hhmm oh om)) (Some (hhmm ch cm)) (date_of_minute now)
  = if minutes ch cm <? minutes oh om then
      if now <? minutes oh om then
        (now + 1440 <? minutes ch cm + 1440)
        || (now <? minutes ch cm + 1440 - 1440)
      else (minutes oh om <=? now) && (now <? minutes ch cm + 1440)
    else (minutes oh om <=? now) && (now <? minutes ch cm).
Proof.
  intros Hoh Hom Hch Hcm. unfold isOpen.
  change (falsy (Some (hhmm oh om))) with false.
  change (falsy (Some (hhmm ch cm))) with false.
  cbn [orb]. rewrite !time_parts_hhmm by assumption.
  cbn [part nth].
  pose proof (minutes_of_parts oh om) as Ho.
  pose proof (minutes_of_parts ch cm) as Hc.
  pose proof (currentMinutes_of_minute now) as Hn.
  pose proof (IntValued.of_nmul (IntValued.of_ofZ 24) (IntValued.of_ofZ 60)) as Hd.
  change (24 * 60) with 1440 in Hd.
  pose proof (IntValued.of_nadd Hc Hd) as Hc'.
  pose proof (IntValued.of_nadd Hn Hd) as Hn'.
  pose proof (IntValued.of_nsub Hc' Hd) as Hc''.
  rewrite (IntValued.nlt_int Hc Ho), (IntValued.nlt_int Hn Ho),
    (IntValued.nlt_int Hn' Hc'), (IntValued.nlt_int Hn Hc''),
    (IntValued.nge_int Hn Ho), (IntValued.nlt_int Hn Hc'),
    (IntValued.nlt_int Hn Hc).
  reflexivity.
Qed.

(** C2: for well-formed bounds with close earlier than open and a minute of
    the day in [0, 1440), [isOpen] holds exactly when the minute is at or
    after open, or before close: open is included, close is excluded.  With
    22:00 and 02:00 it holds at 23:30 and 01:00, and fails at 10:00 and at
    02:00 sharp. *)
Theorem C2_overnight_window :
  (forall oh om ch cm now : Z,
      0 <= oh < 24 -> 0 <= om < 60 -> 0 <= ch < 24 -> 0 <= cm < 60 ->
      minutes ch cm < minutes oh om ->
      0 <= now < 1440 ->
      isOpen (Some (hhmm oh om)) (Some (hhmm ch cm)) (date_of_minute now)
      = (minutes oh om <=? now) || (now <? minutes ch cm))
  /\ isOpen (Some "22:00") (Some "02:00") (date_of_minute (minutes 23 30)) = true
  /\ isOpen (Some "22:00") (Some "02:00") (date_of_minute (minutes 1 0)) = true
  /\ isOpen (Some "22:00") (Some "02:00") (date_of_minute (minutes 10 0)) = false
  /\ isOpen (Some "22:00") (Some "02:00") (date_of_minute (minutes 2 0)) = false.
Proof.
  split; [| repeat split; vm_compute; reflexivity].
  intros oh om ch cm now Hoh Hom Hch Hcm Hlt Hnow.
  rewrite isOpen_hhmm by assumption.
  unfold minutes in *.
  destruct (ch * 60 + cm <? oh * 60 + om) eqn:E; [| apply Z.ltb_ge in E; lia].
  destruct (now <? oh * 60 + om) eqn:E1.
  - apply Z.ltb_lt in E1.
    replace (oh * 60 + om <=? now) with false by (symmetry; apply Z.leb_gt; lia).
    cbn [orb].
    destruct (now <? ch * 60 + cm) eqn:E2.
    + apply Z.ltb_lt in E2.
      replace (now + 1440 <? ch * 60 + cm + 1440) with true
        by (symmetry; apply Z.ltb_lt; lia).
      reflexivity.
    + apply Z.ltb_ge in E2.
      replace (now + 1440 <? ch * 60 + cm + 1440) with false
        by (symmetry; apply Z.ltb_ge; lia).
      replace (now <? ch * 60 + cm + 1440 - 1440) with false
        by (symmetry; apply Z.ltb_ge; lia).
      reflexivity.
  - apply Z.ltb_ge in E1.
    replace (oh * 60 + om <=? now) with true by (symmetry; apply Z.leb_le; lia).
    replace (now <? ch * 60 + cm + 1440) with true
      by (symmetry; apply Z.ltb_lt; lia).
    reflexivity.
Qed.

(** The window from 22:00 to 02:00 at 23:30. *)
Lemma C2_overnight_window_witness :
  isOpen (Some (hhmm 22 0)) (Some (hhmm 2 0)) (date_of_minute 1410)
  = (minutes 22 0 <=? 1410) || (1410 <? minutes 2 0).
Proof.
  apply (proj1 C2_overnight_window); unfold minutes; lia.
Defined.

(** C7: for well-formed bounds with open not later than close, [isOpen]
    holds exactly when open <= now < close.  With 09:00 and 17:00 it fails
    at 08:59, holds at 09:00 and at 16:59, and fails at 17:00. *)
Theorem C7_same_day_window :
  (forall oh om ch cm now : Z,
      0 <= oh < 24 -> 0 <= om < 60 -> 0 <= ch < 24 -> 0 <= cm < 60 ->
      minutes oh om <= minutes ch cm ->
      isOpen (Some (hhmm oh om)) (Some (hhmm ch cm)) (date_of_minute now)
      = (minutes oh om <=? now) && (now <? minutes ch cm))
  /\ isOpen (Some "09:00") (Some "17:00") (date_of_minute (minutes 8 59)) = false
  /\ isOpen (Some "09:00") (Some "17:00") (date_of_minute (minutes 9 0)) = true
  /\ isOpen (Some "09:00") (Some "17:00") (date_of_minute (minutes 16 59)) = true
  /\ isOpen (Some "09:00") (Some "17:00") (date_of_minute (minutes 17 0)) = false.
Proof.
  split; [| repeat split; vm_compute; reflexivity].
  intros oh om ch cm now Hoh Hom Hch Hcm Hle.
  rewrite isOpen_hhmm by assumption.
  replace (minutes ch cm <? minutes oh om) with false
    by (symmetry; apply Z.ltb_ge; lia).
  reflexivity.
Qed.

(** The window from 09:00 to 17:00 at 10:00. *)
Lemma C7_same_day_window_witness :
  isOpen (Some (hhmm 9 0)) (Some (hhmm 17 0)) (date_of_minute 600)
  = (minutes 9 0 <=? 600) && (600 <? minutes 17 0).
Proof.
  apply (proj1 C7_same_day_window); unfold minutes; lia.
Defined.

Lemma unparsable_minutes (t : option string) :
  unparsable t = true ->
  nadd (nmul (part 0 (time_parts t)) (ofZ 60)) (part 1 (time_parts t)) = NaN.
Proof.
  unfold unparsable. intros H. apply orb_true_iff in H.
  destruct H as [H | H].
  - destruct (part 0 (time_parts t)); try discriminate. reflexivity.
  - destruct (part 1 (time_parts t)); try discriminate. apply NumberFacts.nadd_NaN_r.
Qed.

Lemma split_without_colon (s : string) :
  includes s ":" = false -> split ":" s = [s].
Proof.
  induction s as [| c r IH]; intros H.
  - reflexivity.
  - cbn [includes String.prefix] in H. apply orb_false_iff in H.
    destruct H as [Hp Hr].
    cbn [split]. destruct (Ascii.eqb_spec c ":") as [-> | Hne].
    + exfalso. destruct (ascii_dec ":" ":") as [_ | Hc] in Hp;
        [destruct r; discriminate Hp | now apply Hc].
    + now rewrite (IH Hr).
Qed.

(** C8, the part that fails: a bound that is not of the form HH:MM but
    whose colon-separated parts convert to numbers is read as a time.  The
    lone colon is midnight, so the window from it to 23:59 is open at
    10:00; 9:5 is five past nine, so the window from it to 17:00 is open
    at 10:00 as well. *)
Lemma C8_malformed_bound_is_read :
  ~ well_formed ":"
  /\ isOpen (Some ":") (Some "23:59") (date_of_minute (minutes 10 0)) = true
  /\ ~ well_formed "9:5"
  /\ isOpen (Some "9:5") (Some "17:00") (date_of_minute (minutes 10 0)) = true.
Proof.
  assert (Hlen : forall s, well_formed s -> String.length s = 5%nat).
  { intros s (h & m & _ & _ & ->). reflexivity. }
  repeat split; try (vm_compute; reflexivity);
    intros H; apply Hlen in H; discriminate H.
Qed.

(** C8, amended: [isOpen] is false whenever a bound is absent or empty, or
    has an hour or a minute component that does not convert to a number;
    every string without a colon is such a bound.  [isOpen] is total on
    strings, so nothing is raised. *)
Theorem C8_unknown_is_closed :
  (forall (o c : option string) (now : Date),
      falsy o = true \/ falsy c = true
      \/ unparsable o = true \/ unparsable c = true ->
      isOpen o c now = false)
  /\ (forall s : string, includes s ":" = false -> unparsable (Some s) = true).
Proof.
  split.
  - intros o c now H. unfold isOpen.
    destruct (falsy o) eqn:Fo; [reflexivity |].
    destruct (falsy c) eqn:Fc; [reflexivity |].
    cbn [orb].
    destruct H as [H | [H | [H | H]]]; try discriminate H.
    + rewrite (unparsable_minutes o H).
      rewrite NumberFacts.nlt_NaN_r, NumberFacts.nge_NaN_r. reflexivity.
    + rewrite (unparsable_minutes c H).
      change (nlt NaN ?x) with false. cbv iota.
      rewrite NumberFacts.nlt_NaN_r. apply andb_false_r.
  - intros s H. unfold unparsable, time_parts.
    rewrite (split_without_colon s H). cbn [map part nth isNaN].
    apply orb_true_r.
Qed.

(** A bound without a colon, against a well-formed one. *)
Lemma C8_unknown_is_closed_witness :
  isOpen (Some "soon") (Some "17:00") (date_of_minute 600) = false.
Proof.
  apply (proj1 C8_unknown_is_closed).
  right; right; left. vm_compute. reflexivity.
Defined.

End TimeWindowFacts.

(* ------------------------------------------------------------------ *)
(** ** The insertion sort behind [Array.prototype.sort] *)
(* ------------------------------------------------------------------ *)

Module SortFacts.

Import Geolocation.

Section Generic.

Variable A : Type.
Variable cmp : A -> A -> number.

Lemma sort_cons (x : A) (l : list A) :
  sort cmp (x :: l) = insert cmp x (sort cmp l).
Proof. reflexivity. Qed.

Lemma insert_perm (x : A) (l : list A) : Permutation (insert cmp x l) (x :: l).
Proof.
  induction l as [| y r IH]; cbn [insert].
  - apply Permutation_refl.
  - destruct (sorts_after cmp x y).
    + apply Permutation_trans with (y :: x :: r).
      * now apply perm_skip.
      * apply perm_swap.
    + apply Permutation_refl.
Qed.

Lemma sort_perm (l : list A) : Permutation (sort cmp l) l.
Proof.
  induction l as [| x l IH].
  - apply perm_nil.
  - rewrite sort_cons. apply Permutation_trans with (x :: sort cmp l).
    + apply insert_perm.
    + now apply perm_skip.
Qed.

Lemma sort_in (l : list A) (x : A) : In x (sort cmp l) <-> In x l.
Proof.
  split; apply Permutation_in;
    [apply sort_perm | apply Permutation_sym, sort_perm].
Qed.


Hypothesis antisym : forall x y, sorts_after cmp x y = true -> sorts_after cmp y x = false.




(** Elements that never sort after another keep their places among
    themselves. *)
Lemma filter_insert (p : A -> bool) (x : A) (l : list A) :
  (forall y, p x = true -> sorts_after cmp x y = false) ->
  filter p (insert cmp x l) = filter p (x :: l).
Proof.
  intros Hp. induction l as [| y r IH]; [reflexivity |].
  cbn [insert]. destruct (sorts_after cmp x y) eqn:E; [| reflexivity].
  cbn [filter] in *. rewrite IH.
  destruct (p x) eqn:Px; [| reflexivity].
  now rewrite (Hp y eq_refl) in E.
Qed.

Lemma filter_sort (p : A -> bool) (l : list A) :
  (forall x y, In x l -> p x = true -> sorts_after cmp x y = false) ->
  filter p (sort cmp l) = filter p l.
Proof.
  induction l as [| x l IH]; intros Hp; [reflexivity |].
  rewrite sort_cons, filter_insert
    by (intros y; apply Hp; left; reflexivity).
  cbn [filter]. rewrite IH; [reflexivity |].
  intros z y Hz. apply Hp. now right.
Qed.

(** On elements that a transitive order compares in full, the result is
    sorted for that order. *)
Variable le : A -> A -> Prop.
Variable carrier : A -> Prop.

Hypothesis le_trans :
  forall x y z, le x y -> le y z -> le x z.
Hypothesis after_le :
  forall x y, carrier x -> carrier y -> sorts_after cmp x y = true -> le y x.
Hypothesis not_after_le :
  forall x y, carrier x -> carrier y -> sorts_after cmp x y = false -> le x y.

Lemma insert_strongly_sorted (x : A) (l : list A) :
  carrier x -> Forall carrier l ->
  StronglySorted le l -> StronglySorted le (insert cmp x l).
Proof.
  intros Hx Hl Hs. induction Hs as [| y r Hs IH Hall]; cbn [insert].
  - repeat constructor.
  - inversion Hl as [| ? ? Hy Hr]; subst.
    destruct (sorts_after cmp x y) eqn:E.
    + constructor; [now apply IH |].
      apply Forall_forall. intros z Hz.
      apply (Permutation_in _ (insert_perm x r)) in Hz.
      destruct Hz as [<- | Hz].
      * now apply after_le.
      * rewrite Forall_forall in Hall. now apply Hall.
    + constructor; [now constructor |].
      constructor; [now apply not_after_le |].
      apply Forall_forall. intros z Hz.
      rewrite Forall_forall in Hall.
      apply le_trans with y; [now apply not_after_le | now apply Hall].
Qed.

Lemma sort_strongly_sorted (l : list A) :
  Forall carrier l -> StronglySorted le (sort cmp l).
Proof.
  induction 1 as [| x l Hx Hl IH].
  - constructor.
  - rewrite sort_cons.
    apply insert_strongly_sorted; [assumption | | assumption].
    apply Forall_forall. intros z Hz. apply (proj1 (sort_in l z)) in Hz.
    rewrite Forall_forall in Hl. now apply Hl.
Qed.

End Generic.

End SortFacts.

(* ------------------------------------------------------------------ *)
(** ** Ranking by distance *)
(* ------------------------------------------------------------------ *)

Module GeolocationFacts.

Import Geolocation.

Local Open Scope string_scope.

Section Host.

Variable M : HostMath.



(** On finite coordinates the source computes the great-circle distance
    of the specification. *)
Lemma haversine_great_circle (lat1 lng1 lat2 lng2 : Q) :
  haversine M (Fin lat1) (Fin lng1) (Fin lat2) (Fin lng2)
  = great_circle_km M lat1 lng1 lat2 lng2.
Proof. reflexivity. Qed.

(** A missing coordinate makes the distance [NaN]. *)
Lemma haversine_NaN_lat (lat1 lng1 lng2 : number) :
  haversine M lat1 lng1 NaN lng2 = NaN.
Proof.
  unfold haversine. cbv zeta.
  change (nsub NaN lat1) with NaN.
  change (nmul NaN (ndiv Math_PI (ofZ 180))) with NaN.
  change (ndiv NaN (ofZ 2)) with NaN.
  change (Math_sin M NaN) with NaN.
  change (nmul NaN NaN) with NaN.
  change (nadd NaN ?x) with NaN.
  reflexivity.
Qed.

Lemma haversine_NaN_lng (lat1 lng1 lat2 : number) :
  haversine M lat1 lng1 lat2 NaN = NaN.
Proof.
  unfold haversine. cbv zeta.
  change (nsub NaN lng1) with NaN.
  change (nmul NaN (ndiv Math_PI (ofZ 180))) with NaN.
  change (ndiv NaN (ofZ 2)) with NaN.
  change (Math_sin M NaN) with NaN.
  rewrite !NumberFacts.nmul_NaN_r, NumberFacts.nadd_NaN_r.
  reflexivity.
Qed.

Variable coords : LatLng.t.

(** A coordinate that is not there makes the distance [NaN]. *)
Lemma rounded_distance_missing (item : Listing) :
  lat item = Missing \/ lng item = Missing ->
  rounded_distance M coords item = NaN.
Proof.
  unfold rounded_distance.
  intros [H | H]; rewrite H; cbn [coordinate_number].
  - now rewrite haversine_NaN_lat.
  - now rewrite haversine_NaN_lng.
Qed.

(** A [null] coordinate is read as 0. *)
Lemma rounded_distance_nulls (item : Listing) :
  rounded_distance M coords (nulls_as_zero item)
  = rounded_distance M coords item.
Proof.
  unfold rounded_distance, nulls_as_zero. cbn [lat lng].
  now destruct (lat item), (lng item).
Qed.


Lemma distance_of_annotate (item : Listing) :
  distance_of (annotate M coords item) = rounded_distance M coords item.
Proof. reflexivity. Qed.

Lemma rounded_distance_annotate (item : Listing) :
  rounded_distance M coords (annotate M coords item)
  = rounded_distance M coords item.
Proof. reflexivity. Qed.


Lemma without_distance_annotate (item : Listing) :
  without_distance (annotate M coords item) = without_distance item.
Proof. reflexivity. Qed.

Lemma has_coords_annotate (item : Listing) :
  has_coords (annotate M coords item) = has_coords item.
Proof. reflexivity. Qed.

End Host.


(** A listing whose distance is [NaN] never sorts after another, nor
    another after it. *)
Lemma by_distance_NaN (x y : Listing) :
  distance_of x = NaN ->
  sorts_after by_distance x y = false /\ sorts_after by_distance y x = false.
Proof.
  unfold sorts_after, by_distance, ngt. intros ->.
  split; [reflexivity |].
  unfold nsub. cbn [nneg]. now rewrite NumberFacts.nadd_NaN_r.
Qed.

(** The comparator itself returns [NaN] for every pair with such a
    listing. *)
Lemma by_distance_is_NaN (x y : Listing) :
  distance_of x = NaN ->
  by_distance x y = NaN /\ by_distance y x = NaN.
Proof.
  unfold by_distance. intros ->. split; [reflexivity |].
  unfold nsub. cbn [nneg]. apply NumberFacts.nadd_NaN_r.
Qed.

Lemma by_distance_after (x y : Listing) (a b : Q) :
  distance_of x = Fin a -> distance_of y = Fin b ->
  sorts_after by_distance x y = true <-> (b < a)%Q.
Proof.
  unfold sorts_after, by_distance, ngt. intros -> ->.
  cbn [nsub nneg nadd nlt ofZ]. rewrite Conversions.Qltb_true.
  change (inject_Z 0) with 0%Q. split; intros; lra.
Qed.

(** Between listings whose distances are numbers, the comparator decides
    the order of the distances. *)
Lemma ascending_cases (x y : Listing) :
  isNaN (distance_of x) = false -> isNaN (distance_of y) = false ->
  (sorts_after by_distance x y = true -> ascending y x)
  /\ (sorts_after by_distance x y = false -> ascending x y).
Proof.
  unfold ascending, sorts_after, by_distance, ngt.
  destruct (distance_of x) as [| s | a], (distance_of y) as [| t | b];
    intros Hx Hy; try discriminate Hx; try discriminate Hy.
  - destruct s, t; cbn; split; congruence.
  - destruct s; cbn; split; congruence.
  - destruct t; cbn; split; congruence.
  - rewrite !NumberFacts.nge_Fin. cbn [nsub nneg nadd nlt ofZ].
    rewrite Conversions.Qltb_true, Conversions.Qltb_false.
    change (inject_Z 0) with 0%Q. split; intros; lra.
Qed.

Lemma ascending_of_after (x y : Listing) :
  isNaN (distance_of x) = false -> isNaN (distance_of y) = false ->
  sorts_after by_distance x y = true -> ascending y x.
Proof. intros Hx Hy. apply (ascending_cases x y Hx Hy). Qed.

Lemma ascending_of_not_after (x y : Listing) :
  isNaN (distance_of x) = false -> isNaN (distance_of y) = false ->
  sorts_after by_distance x y = false -> ascending x y.
Proof. intros Hx Hy. apply (ascending_cases x y Hx Hy). Qed.


(** Every listing of the result is an annotated listing of the input. *)
Lemma sortByDistance_in (M : HostMath) (c : LatLng.t) (l : list Listing)
      (y : Listing) :
  In y (sortByDistance M (Some c) l) <->
  exists x, In x l /\ y = annotate M c x.
Proof.
  unfold sortByDistance. rewrite SortFacts.sort_in, in_map_iff.
  split; intros (x & H1 & H2); exists x; auto.
Qed.

Lemma sortByDistance_membership (M : HostMath) (coords : option LatLng.t)
      (l : list Listing) :
  Permutation (map without_distance (sortByDistance M coords l))
              (map without_distance l).
Proof.
  destruct coords as [c |]; [| apply Permutation_refl].
  unfold sortByDistance.
  apply Permutation_trans with (map without_distance (map (annotate M c) l)).
  - apply Permutation_map, SortFacts.sort_perm.
  - rewrite map_map. apply Permutation_refl.
Qed.



(** The scenario, evaluated once. *)
Lemma distance_A :
  rounded_distance RefMath.host visitor listing_A = Fin (157 # 100).
Proof. vm_compute. reflexivity. Qed.

Lemma distance_B :
  rounded_distance RefMath.host visitor listing_B = Fin (1737 # 100).
Proof. vm_compute. reflexivity. Qed.

Lemma distance_C : rounded_distance RefMath.host visitor listing_C = NaN.
Proof. apply rounded_distance_missing. now left. Qed.

Lemma ranked_ABC :
  sortByDistance RefMath.host (Some visitor) [listing_A; listing_B; listing_C]
  = [with_distance listing_A (Fin (157 # 100));
     with_distance listing_B (Fin (1737 # 100));
     with_distance listing_C NaN].
Proof.
  unfold sortByDistance. cbn [map]. unfold annotate.
  rewrite distance_A, distance_B, distance_C. reflexivity.
Qed.

Lemma ranked_CAB :
  sortByDistance RefMath.host (Some visitor) [listing_C; listing_A; listing_B]
  = [with_distance listing_C NaN;
     with_distance listing_A (Fin (157 # 100));
     with_distance listing_B (Fin (1737 # 100))].
Proof.
  unfold sortByDistance. cbn [map]. unfold annotate.
  rewrite distance_A, distance_B, distance_C. reflexivity.
Qed.





(** C1, the part that fails: the listing without coordinates does get a
    [distance] field, holding [NaN]; and since it compares as equal to
    every listing, it stays ahead of the others when it comes first. *)
Lemma C1_coordinate_less_is_annotated :
  map distance
    (sortByDistance RefMath.host (Some visitor)
       [listing_A; listing_B; listing_C])
  = [Some (Fin (157 # 100)); Some (Fin (1737 # 100)); Some NaN]
  /\ map id
       (sortByDistance RefMath.host (Some visitor)
          [listing_C; listing_A; listing_B])
     = ["C"; "A"; "B"].
Proof. rewrite ranked_ABC, ranked_CAB. split; reflexivity. Qed.

(** C1, amended: with a position, the result holds the listings of the
    input, none dropped and none added, and every one carries a [distance]
    field.  For a listing whose [lat] or [lng] is not there the field holds
    [NaN], and the comparator returns [NaN] for every pair with such a
    listing, so that the order is no longer fixed by the comparator; a
    [null] coordinate is read as 0 and gives the distance to that point.
    In the scenario the result is A, B, C with distances 1.57, 17.37 and
    [NaN]. *)
Theorem C1_coordinate_less_listings :
  (forall (M : HostMath) (c : LatLng.t) (l : list Listing),
      let out := sortByDistance M (Some c) l in
      Permutation out (map (annotate M c) l)
      /\ (forall y, In y out ->
            exists d, distance y = Some d
                      /\ (lat y = Missing \/ lng y = Missing -> d = NaN))
      /\ (forall x y, In x out -> lat x = Missing \/ lng x = Missing ->
            by_distance x y = NaN /\ by_distance y x = NaN)
      /\ (forall x, rounded_distance M c (nulls_as_zero x)
                    = rounded_distance M c x))
  /\ map id
       (sortByDistance RefMath.host (Some visitor)
          [listing_A; listing_B; listing_C])
     = ["A"; "B"; "C"]
  /\ map distance
       (sortByDistance RefMath.host (Some visitor)
          [listing_A; listing_B; listing_C])
     = [Some (Fin (157 # 100)); Some (Fin (1737 # 100)); Some NaN]
  /\ nlt (Fin (157 # 100)) (Fin (1737 # 100)) = true.
Proof.
  split; [| rewrite ranked_ABC; split; [| split]; reflexivity].
  intros M c l out.
  assert (Hnan : forall x, In x out -> lat x = Missing \/ lng x = Missing ->
                           distance_of x = NaN).
  { intros y Hy Hno. apply sortByDistance_in in Hy.
    destruct Hy as (x & _ & ->).
    rewrite distance_of_annotate. now apply rounded_distance_missing. }
  split; [| split; [| split]].
  - apply SortFacts.sort_perm.
  - intros y Hy. pose proof (Hnan y Hy) as Hd.
    apply sortByDistance_in in Hy. destruct Hy as (x & _ & ->).
    exists (rounded_distance M c x). split; [reflexivity |].
    intros Hno. now apply Hd.
  - intros x y Hx Hno. apply (by_distance_is_NaN x y). now apply Hnan.
  - intros x. apply rounded_distance_nulls.
Qed.

(** The scenario with the listing without coordinates in front. *)
Lemma C1_coordinate_less_listings_witness :
  Permutation
    (sortByDistance RefMath.host (Some visitor)
       [listing_C; listing_A; listing_B])
    (map (annotate RefMath.host visitor) [listing_C; listing_A; listing_B]).
Proof.
  apply (proj1 C1_coordinate_less_listings RefMath.host visitor
           [listing_C; listing_A; listing_B]).
Defined.

(** The page filters first and ranks what is left: ranking neither drops
    nor adds a listing. *)
Lemma displayed_ranks_the_filtered (M : HostMath) (gpsActive : bool)
      (coords : option LatLng.t) (c : Filter.Criteria) (l : list Listing) :
  Permutation
    (map without_distance (HomePage.displayed M gpsActive coords c l))
    (map without_distance (Filter.filtered c l)).
Proof.
  unfold HomePage.displayed. destruct gpsActive.
  - apply sortByDistance_membership.
  - apply Permutation_refl.
Qed.

End GeolocationFacts.

(* ------------------------------------------------------------------ *)
(** ** The filter *)
(* ------------------------------------------------------------------ *)

Module FilterFacts.

Import Filter.

Local Open Scope string_scope.

(** The three predicates combine with AND. *)
Lemma filtered_keeps_all_three (c : Criteria) (l : list Listing) (r : Listing) :
  In r (filtered c l) <->
  In r l /\ matchDist c r = true /\ matchCat c r = true /\ matchQ c r = true.
Proof.
  unfold filtered, keeps. rewrite filter_In, !andb_true_iff. tauto.
Qed.

(** With the three sentinel values nothing is filtered out. *)
Lemma filtered_no_constraint (l : list Listing) : filtered no_constraint l = l.
Proof.
  induction l as [| r l IH]; [reflexivity |].
  unfold filtered in *. cbn [filter]. now rewrite IH.
Qed.

Lemma toLowerCase_empty (s : string) :
  String.eqb (toLowerCase s) EmptyString = String.eqb s EmptyString.
Proof. now destruct s. Qed.

(** When the category tokens are in lower case, as the category ids of the
    page are, the source's text predicate is the specification's. *)
Lemma matchQ_text_spec (c : Criteria) (r : Listing) :
  Forall (fun t => toLowerCase t = t) (or_nil (categories r)) ->
  matchQ c r = text_spec c r.
Proof.
  intros H. unfold matchQ, text_spec. rewrite toLowerCase_empty.
  assert (E : existsb (fun t => includes t (toLowerCase (searchQuery c)))
                (or_nil (categories r))
              = existsb (fun t => includes (toLowerCase t)
                                    (toLowerCase (searchQuery c)))
                  (or_nil (categories r))).
  { induction H as [| t ts Ht _ IH]; [reflexivity |].
    cbn [existsb]. now rewrite Ht, IH. }
  rewrite E.
  repeat match goal with |- context [includes ?a ?b] =>
    generalize (includes a b); intro end.
  repeat match goal with |- context [existsb ?a ?b] =>
    generalize (existsb a b); intro end.
  repeat match goal with |- context [String.eqb ?a ?b] =>
    generalize (String.eqb a b); intro end.
  repeat match goal with b : bool |- _ => destruct b end; reflexivity.
Qed.

(** C4, at the failing input: the category token "Indian" contains the
    query "indian" once letter case is ignored, so the specification's text
    predicate passes, and the other two predicates pass on their
    sentinels; the source compares the token as it is stored and drops the
    listing. *)
Theorem C4_category_token_case :
  text_spec search_indian indian_place = true
  /\ matchDist search_indian indian_place = true
  /\ matchCat search_indian indian_place = true
  /\ matchQ search_indian indian_place = false
  /\ filtered search_indian [indian_place] = [].
Proof. repeat split. Qed.

End FilterFacts.

(* ------------------------------------------------------------------ *)
(** ** The editable pin *)
(* ------------------------------------------------------------------ *)

Module OwnerMapFacts.

Import OwnerMap.

Local Open Scope Q_scope.

Lemma fixed_digits_grid (d : nat) (n : Z) (x : Q) :
  x == inject_Z n / inject_Z (10 ^ Z.of_nat d) -> fixed_digits d x = n.
Proof.
  intros Hx. unfold fixed_digits.
  pose proof (Conversions.ten_pow_pos d) as Hp.
  assert (E : x * inject_Z (10 ^ Z.of_nat d) + (1 # 2) == (2 * n + 1) # 2).
  { rewrite Hx. rewrite (Qmake_Qdiv (2 * n + 1) 2).
    rewrite inject_Z_plus, inject_Z_mult.
    change (inject_Z (Z.pos 2)) with 2. change (inject_Z 2) with 2.
    change (inject_Z 1) with 1. field.
    intros Hz. rewrite Hz in Hp. lra. }
  rewrite E. change (Qfloor ((2 * n + 1) # 2)) with ((2 * n + 1) / 2)%Z.
  pose proof (Z.div_mod (2 * n + 1) 2 ltac:(lia)).
  pose proof (Z.mod_pos_bound (2 * n + 1) 2 ltac:(lia)). lia.
Qed.

(** Rounding a rounded value changes nothing. *)
Lemma round_dec_idempotent (d : nat) (q : Q) :
  round_dec d (round_dec d q) = round_dec d q.
Proof.
  pose proof (Conversions.ten_pow_pos d) as Hp.
  destruct (Conversions.round_dec_grid d q) as (n & Hn).
  assert (Hred : exists x, round_dec d q = Qred x).
  { unfold round_dec. destruct (Qltb q 0); eexists; reflexivity. }
  destruct Hred as (x & Ex).
  assert (Hneg : - round_dec d q
                 == inject_Z (- n) / inject_Z (10 ^ Z.of_nat d)).
  { rewrite Hn, inject_Z_opp. field. intros Hz. rewrite Hz in Hp. lra. }
  unfold round_dec at 1.
  destruct (Qltb (round_dec d q) 0).
  - rewrite (@fixed_digits_grid d (- n)%Z _ Hneg).
    rewrite Ex. apply Qred_complete.
    rewrite <- (Qred_correct x), <- Ex, Hn.
    rewrite Qred_correct, Conversions.pow10_neg, inject_Z_opp.
    field. intros Hz. rewrite Hz in Hp. lra.
  - rewrite (@fixed_digits_grid d n _ Hn).
    rewrite Ex. apply Qred_complete.
    rewrite <- (Qred_correct x), <- Ex, Hn.
    rewrite Conversions.pow10_neg. reflexivity.
Qed.

(** C10: after a drag that ends at, or a tap at, the raw position
    [(a, b)], the pin state and the position handed to [onPinChange] are
    [(a, b)] rounded to six decimals: multiples of 10^-6 within half a
    millionth of the raw values; the text shown under the map denotes the
    stored value, and the handler is told of no other position. *)
Theorem C10_interactive_edit_rounds_to_six_decimals
        (e : edit) (st : state) (a b : Q) :
  raw e = at_ (Fin a) (Fin b) ->
  let st' := handle e st in
  let p := at_ (Fin (round_dec 6 a)) (Fin (round_dec 6 b)) in
  pinCoords st' = p
  /\ (onPinChange st = true ->
      exists before,
        calls st' = before ++ [SetPinCoords p; OnPinChange p])
  /\ (forall q, In (OnPinChange q) (calls st') ->
                In (OnPinChange q) (calls st) \/ q = p)
  /\ (exists n m : Z,
        round_dec 6 a == inject_Z n / 1000000
        /\ round_dec 6 b == inject_Z m / 1000000)
  /\ Qabs (round_dec 6 a - a) <= 1 # 2000000
  /\ Qabs (round_dec 6 b - b) <= 1 # 2000000
  /\ parseFloat (toFixed 6 (LatLng.lat (pinCoords st')))
     = LatLng.lat (pinCoords st')
  /\ parseFloat (toFixed 6 (LatLng.lng (pinCoords st')))
     = LatLng.lng (pinCoords st').
Proof.
  intros Hraw st' p.
  assert (Hpin : pinCoords st' = p).
  { unfold st', p. destruct e as [q | q]; cbn [raw] in Hraw; subst q;
      cbn [handle on_dragend on_click dragged_to updatePin pinCoords marker
           LatLng.lat LatLng.lng at_];
      now rewrite !Conversions.parseFloat_toFixed. }
  assert (Hcalls : exists mid,
             calls st' = calls st ++ mid
                           ++ SetPinCoords p
                           :: (if onPinChange st then [OnPinChange p] else [])
             /\ forall q, ~ In (OnPinChange q) mid).
  { unfold st', p. destruct e as [q | q]; cbn [raw] in Hraw; subst q;
      cbn [handle on_dragend on_click dragged_to updatePin calls marker
           onPinChange LatLng.lat LatLng.lng at_];
      rewrite !Conversions.parseFloat_toFixed.
    - exists []. split; [reflexivity | intros q []].
    - exists [SetLatLng (at_ (Fin a) (Fin b))]. split.
      + now rewrite <- app_assoc.
      + intros q [H | []]. discriminate H. }
  destruct Hcalls as (mid & Hc & Hmid).
  repeat split.
  - exact Hpin.
  - intros Hh. rewrite Hh in Hc. exists (calls st ++ mid).
    rewrite Hc. now rewrite <- app_assoc.
  - intros q Hq. rewrite Hc in Hq.
    apply in_app_or in Hq. destruct Hq as [Hq | Hq]; [now left |].
    apply in_app_or in Hq. destruct Hq as [Hq | Hq]; [now elim (Hmid q) |].
    destruct Hq as [Hq | Hq]; [discriminate Hq |].
    destruct (onPinChange st); [| now elim Hq].
    destruct Hq as [Hq | []]. right. now inversion Hq.
  - destruct (Conversions.round_dec_grid 6 a) as (n & Hn).
    destruct (Conversions.round_dec_grid 6 b) as (m & Hm).
    exists n, m. split; [exact Hn | exact Hm].
  - exact (Conversions.round_dec_close 6 a).
  - exact (Conversions.round_dec_close 6 b).
  - rewrite Hpin. unfold p. cbn [LatLng.lat at_].
    now rewrite Conversions.parseFloat_toFixed, round_dec_idempotent.
  - rewrite Hpin. unfold p. cbn [LatLng.lng at_].
    now rewrite Conversions.parseFloat_toFixed, round_dec_idempotent.
Qed.

(** A tap at a position with eleven and ten decimals. *)
Lemma C10_interactive_edit_rounds_to_six_decimals_witness :
  pinCoords
    (handle (Tap (at_ (Fin (31871234567 # 100000000000))
                      (Fin (325839999996 # 10000000000))))
            (mount default_lat default_lng true))
  = at_ (Fin (round_dec 6 (31871234567 # 100000000000)))
        (Fin (round_dec 6 (325839999996 # 10000000000))).
Proof.
  apply (@C10_interactive_edit_rounds_to_six_decimals
           (Tap (at_ (Fin (31871234567 # 100000000000))
                     (Fin (325839999996 # 10000000000))))
           (mount default_lat default_lng true)
           (31871234567 # 100000000000) (325839999996 # 10000000000)).
  reflexivity.
Defined.

(** C3, the part that fails: the effect compares with [!==].  A latitude
    that differs from the marker's by 10^-7 of a degree, well within the
    tolerance, moves the marker, recentres the view and re-seeds the pin
    state. *)
Lemma C3_sync_has_no_tolerance :
  within_epsilon (at_ nudged_lat default_lng)
                 (marker (mount default_lat default_lng true))
  /\ option_map marker
       (sync always nudged_lat default_lng
             (mount default_lat default_lng true))
     = Some (at_ nudged_lat default_lng)
  /\ option_map calls
       (sync always nudged_lat default_lng
             (mount default_lat default_lng true))
     = Some [SetLatLng (at_ nudged_lat default_lng);
             SetView (at_ nudged_lat default_lng) 13;
             SetPinCoords (at_ nudged_lat default_lng)].
Proof.
  split; [| split; reflexivity].
  split; vm_compute; intros H; discriminate H.
Qed.

Lemma strict_eq_refl (q : Q) : strict_eq (Fin q) (Fin q) = true.
Proof. cbn [strict_eq]. apply Qeq_bool_iff. reflexivity. Qed.

Lemma strict_eq_same (x : number) : isNaN x = false -> strict_eq x x = true.
Proof.
  destruct x as [| s | q]; [discriminate | | intros _; apply strict_eq_refl].
  intros _. now destruct s.
Qed.

Lemma strict_ne_NaN (x : number) : strict_ne x NaN = true.
Proof. now destruct x. Qed.

Section Leaflet.

Variable moves : LatLng.t -> Z -> bool.

(** What the effect leaves behind when it ends normally. *)
Lemma sync_cases (la lo : number) (st st' : state) :
  sync moves la lo st = Some st' ->
  st' = st
  \/ (refused (at_ la lo) = false
      /\ st' = {| mounted := mounted st;
                  marker := at_ la lo;
                  center := at_ la lo;
                  zoom := zoom st;
                  pinCoords := at_ la lo;
                  onPinChange := onPinChange st;
                  calls := calls st
                           ++ [SetLatLng (at_ la lo);
                               SetView (at_ la lo) (zoom st);
                               SetPinCoords (at_ la lo)] |}).
Proof.
  unfold sync. destruct (mounted st); [| intros [= <-]; now left].
  destruct (strict_ne (LatLng.lat (marker st)) la
            || strict_ne (LatLng.lng (marker st)) lo);
    [| intros [= <-]; now left].
  destruct (refused (at_ la lo)); [discriminate |].
  destruct (moves (at_ la lo) (zoom st)); [| discriminate].
  intros [= <-]. now right.
Qed.

(** C3, amended: once mounted, the effect repositions the marker,
    recentres the view at the zoom it has and re-seeds the pin state
    exactly when the new latitude or longitude is not strictly equal to the
    marker's, provided neither is [NaN] and the widget carries out the
    move; with a [NaN], which is never strictly equal, [setLatLng] throws
    and nothing is repositioned.  Coordinates strictly equal to the
    marker's change nothing, a second update with the same coordinates
    changes nothing more, and the effect never calls [onPinChange]. *)
Theorem C3_sync_on_any_difference (st : state) (la lo : number) :
  (mounted st = true ->
   strict_ne (LatLng.lat (marker st)) la
   || strict_ne (LatLng.lng (marker st)) lo = true ->
   refused (at_ la lo) = false ->
   moves (at_ la lo) (zoom st) = true ->
   exists st',
     sync moves la lo st = Some st'
     /\ marker st' = at_ la lo
     /\ center st' = at_ la lo
     /\ zoom st' = zoom st
     /\ pinCoords st' = at_ la lo
     /\ calls st'
        = calls st ++ [SetLatLng (at_ la lo); SetView (at_ la lo) (zoom st);
                       SetPinCoords (at_ la lo)])
  /\ (mounted st = true -> refused (at_ la lo) = true ->
      sync moves la lo st = None)
  /\ (strict_eq (LatLng.lat (marker st)) la = true ->
      strict_eq (LatLng.lng (marker st)) lo = true ->
      sync moves la lo st = Some st)
  /\ (forall st',
        sync moves la lo st = Some st' -> sync moves la lo st' = Some st')
  /\ (forall st' p,
        sync moves la lo st = Some st' ->
        In (OnPinChange p) (calls st') -> In (OnPinChange p) (calls st)).
Proof.
  split; [| split; [| split; [| split]]].
  - intros Hm Hd Hr Hv. unfold sync. rewrite Hm, Hd, Hr, Hv.
    eexists. split; [reflexivity |]. now repeat split.
  - intros Hm Hr. unfold sync. rewrite Hm, Hr.
    unfold refused in Hr. cbn [at_ LatLng.lat LatLng.lng] in Hr.
    apply orb_true_iff in Hr.
    destruct Hr as [Hr | Hr];
      [destruct la | destruct lo]; try discriminate Hr;
      now rewrite strict_ne_NaN, ?orb_true_r.
  - intros H1 H2. unfold sync, strict_ne. rewrite H1, H2.
    now destruct (mounted st).
  - intros st' H. destruct (sync_cases la lo st H) as [-> | (Hr & ->)];
      [exact H |].
    unfold refused in Hr. cbn [at_ LatLng.lat LatLng.lng] in Hr.
    apply orb_false_iff in Hr. destruct Hr as [Ha Hb].
    unfold sync. cbn [mounted marker at_ LatLng.lat LatLng.lng].
    unfold strict_ne. rewrite (strict_eq_same la Ha), (strict_eq_same lo Hb).
    now destruct (mounted st).
  - intros st' p H. destruct (sync_cases la lo st H) as [-> | (_ & ->)];
      [trivial |].
    cbn [calls]. intros Hin. apply in_app_or in Hin.
    destruct Hin as [Hin | Hin]; [exact Hin |].
    cbn [In] in Hin. repeat (destruct Hin as [Hin | Hin]; [discriminate Hin |]).
    now elim Hin.
Qed.

End Leaflet.

(** The geocoded position arrives at a map mounted on the default pin. *)
Lemma C3_sync_on_any_difference_witness :
  exists st',
    sync always (LatLng.lat geocoded) (LatLng.lng geocoded)
         (mount default_lat default_lng true) = Some st'
    /\ marker st' = geocoded.
Proof.
  destruct (proj1 (C3_sync_on_any_difference always
                     (mount default_lat default_lng true)
                     (LatLng.lat geocoded) (LatLng.lng geocoded))
                  eq_refl eq_refl eq_refl eq_refl)
    as (st' & H & Hm & _).
  exists st'. split; [exact H | exact Hm].
Defined.

End OwnerMapFacts.

(* ------------------------------------------------------------------ *)
(** ** The address lookup *)
(* ------------------------------------------------------------------ *)

Module DashboardFacts.

Import Dashboard.

Local Open Scope string_scope.

(** C5, the part that fails: an empty result set is dropped in silence;
    nothing reaches the console. *)
Lemma C5_empty_result_is_not_logged :
  lookup_empty finds_nothing sample_world
  /\ console (snd (handleGeocode finds_nothing sample_world)) = [].
Proof.
  split; [| reflexivity].
  exists (JArray []). split; reflexivity.
Qed.

(** C5, amended: when the lookup fails, [handleGeocode] ends normally,
    leaves the form (the stored coordinates with it) and the toasts as
    they were, and has sent one request and no second one; a failure that
    was thrown is logged on the console, an empty result set is not. *)
Theorem C5_failed_lookup_changes_nothing
        (network : string -> Reply) (w : World) :
  lookup_fails network w ->
  fst (handleGeocode network w) = Normal tt
  /\ form (snd (handleGeocode network w)) = form w
  /\ toasts (snd (handleGeocode network w)) = toasts w
  /\ requests (snd (handleGeocode network w))
     = (if String.eqb (address (form w)) ""
        then requests w
        else (requests w ++ [query_of (form w)])%list)
  /\ (lookup_throws network w -> address (form w) <> "" ->
      exists e,
        console (snd (handleGeocode network w))
        = (console w ++ [("Geocode failed " ++ e)%string])%list)
  /\ (lookup_empty network w ->
      console (snd (handleGeocode network w)) = console w).
Proof.
  intros Hf. unfold handleGeocode, bind, get_form.
  destruct (String.eqb (address (form w)) "") eqn:Ea.
  - cbn [ret fst snd]. repeat split.
    intros _ Hne. apply String.eqb_eq in Ea. contradiction.
  - unfold try_catch, fetch.
    destruct Hf as [(e & [He | He]) | (data & Hd & Hn)].
    + rewrite He. cbn [fst snd console_error form toasts requests console].
      repeat split.
      * intros _ _. now exists e.
      * intros (data & Hd & _). congruence.
    + rewrite He. cbn [json fst snd console_error form toasts requests console].
      repeat split.
      * intros _ _. now exists e.
      * intros (data & Hd & _). congruence.
    + rewrite Hd. cbn [json ret]. rewrite Hn.
      cbn [ret fst snd form toasts requests console].
      repeat split.
      intros (e & [He | He]) _; congruence.
Qed.

(** The lookup service cannot be reached. *)
Lemma C5_failed_lookup_changes_nothing_witness :
  form (snd (handleGeocode unreachable sample_world)) = form sample_world.
Proof.
  apply (@C5_failed_lookup_changes_nothing unreachable sample_world).
  left. exists "Failed to fetch". left. reflexivity.
Defined.

End DashboardFacts.

(* ------------------------------------------------------------------ *)
(** ** More on the filter *)
(* ------------------------------------------------------------------ *)

Module FilterMore.

Import Filter.

Local Open Scope string_scope.

Lemma lower_char_idempotent (c : ascii) :
  lower_char (lower_char c) = lower_char c.
Proof.
  destruct c as [[] [] [] [] [] [] [] []]; reflexivity.
Qed.

Lemma toLowerCase_idempotent (s : string) :
  toLowerCase (toLowerCase s) = toLowerCase s.
Proof.
  induction s as [| c r IH]; [reflexivity |].
  cbn [toLowerCase]. now rewrite lower_char_idempotent, IH.
Qed.

(** X17: two queries that differ in letter case only select the same
    listings. *)
Theorem filtered_query_case (d cat q1 q2 : string) (l : list Listing) :
  toLowerCase q1 = toLowerCase q2 ->
  filtered {| selectedDistrict := d; selectedCat := cat; searchQuery := q1 |} l
  = filtered {| selectedDistrict := d; selectedCat := cat;
                searchQuery := q2 |} l.
Proof.
  intros H. unfold filtered. apply filter_ext. intros r.
  unfold keeps, matchDist, matchCat, matchQ.
  cbn [selectedDistrict selectedCat searchQuery]. now rewrite H.
Qed.

(** The query in capitals and in lower case. *)
Lemma filtered_query_case_witness :
  filtered {| selectedDistrict := "Kampala"; selectedCat := "all";
              searchQuery := "MASALA" |} [indian_place]
  = filtered {| selectedDistrict := "Kampala"; selectedCat := "all";
                searchQuery := "masala" |} [indian_place].
Proof.
  apply (@filtered_query_case "Kampala" "all" "MASALA" "masala" [indian_place]).
  reflexivity.
Defined.

End FilterMore.

(* ------------------------------------------------------------------ *)
(** ** More on opening hours *)
(* ------------------------------------------------------------------ *)

Module TimeWindowMore.

Import TimeWindow.

Local Open Scope string_scope.
Local Open Scope Z_scope.

Ltac by_cases :=
  repeat match goal with
         | |- context [?a <=? ?b] => destruct (Z.leb_spec a b)
         | |- context [?a <? ?b] => destruct (Z.ltb_spec a b)
         end;
  cbn [andb orb negb]; try reflexivity; try lia.

(** Within a day, [isOpen] on well-formed bounds is the window test, the
    window running over midnight when close is earlier than open. *)
Lemma isOpen_window (oh om ch cm now : Z) :
  0 <= oh < 24 -> 0 <= om < 60 -> 0 <= ch < 24 -> 0 <= cm < 60 ->
  0 <= now < 1440 ->
  isOpen (Some (hhmm oh om)) (Some (hhmm ch cm)) (date_of_minute now)
  = if minutes ch cm <? minutes oh om
    then (minutes oh om <=? now) || (now <? minutes ch cm)
    else (minutes oh om <=? now) && (now <? minutes ch cm).
Proof.
  intros Hoh Hom Hch Hcm Hnow.
  rewrite TimeWindowFacts.isOpen_hhmm by assumption.
  unfold minutes. by_cases.
Qed.

(** X9: exchanging the two bounds of a window exchanges open and closed, at
    every minute of the day, unless the bounds coincide. *)
Theorem isOpen_swapped_bounds (oh om ch cm now : Z) :
  0 <= oh < 24 -> 0 <= om < 60 -> 0 <= ch < 24 -> 0 <= cm < 60 ->
  0 <= now < 1440 ->
  minutes oh om <> minutes ch cm ->
  isOpen (Some (hhmm ch cm)) (Some (hhmm oh om)) (date_of_minute now)
  = negb (isOpen (Some (hhmm oh om)) (Some (hhmm ch cm)) (date_of_minute now)).
Proof.
  intros Hoh Hom Hch Hcm Hnow Hne.
  rewrite !isOpen_window by assumption.
  unfold minutes in *. by_cases.
Qed.

(** The window 22:00 to 02:00 and the window 02:00 to 22:00 at 23:30. *)
Lemma isOpen_swapped_bounds_witness :
  isOpen (Some (hhmm 2 0)) (Some (hhmm 22 0)) (date_of_minute 1410)
  = negb (isOpen (Some (hhmm 22 0)) (Some (hhmm 2 0)) (date_of_minute 1410)).
Proof.
  apply isOpen_swapped_bounds; unfold minutes; lia.
Defined.

Lemma split_app_colon (s rest : string) :
  split ":" (s ++ String ":" rest) = (split ":" s ++ split ":" rest)%list.
Proof.
  induction s as [| c r IH].
  - reflexivity.
  - cbn [append split]. rewrite IH.
    destruct (Ascii.eqb c ":"); [reflexivity |].
    destruct (split ":" r) as [| w ws] eqn:E; [| reflexivity].
    destruct r; cbn [split] in E; [discriminate E |].
    destruct (Ascii.eqb a ":"); [discriminate E |].
    destruct (split ":" r); discriminate E.
Qed.

Lemma split_with_colon (s : string) :
  includes s ":" = true ->
  exists a b tl, split ":" s = a :: b :: tl.
Proof.
  induction s as [| c r IH]; intros H.
  - discriminate H.
  - cbn [split]. destruct (Ascii.eqb_spec c ":") as [-> | Hne].
    + destruct (split ":" r) as [| w ws] eqn:E.
      * destruct r; cbn [split] in E; [discriminate E |].
        destruct (Ascii.eqb a ":"); [discriminate E |].
        destruct (split ":" r); discriminate E.
      * now exists EmptyString, w, ws.
    + cbn [includes String.prefix] in H.
      destruct (ascii_dec ":" c) as [E | _]; [now elim Hne |].
      cbn [orb] in H. destruct (IH H) as (a & b & tl & E).
      rewrite E. now exists (String c a), b, tl.
Qed.

Lemma parts_ignore_the_rest (s rest : string) (i : nat) :
  includes s ":" = true -> (i < 2)%nat ->
  part i (time_parts (Some (s ++ String ":" rest)))
  = part i (time_parts (Some s)).
Proof.
  intros H Hi. unfold part, time_parts.
  rewrite split_app_colon, map_app.
  destruct (split_with_colon s H) as (a & b & tl & E). rewrite E.
  apply app_nth1. cbn [map Datatypes.length]. lia.
Qed.

Lemma falsy_with_colon (s : string) :
  includes s ":" = true -> falsy (Some s) = false.
Proof. destruct s; [discriminate | reflexivity]. Qed.

Lemma includes_app (s rest : string) :
  includes s ":" = true -> includes (s ++ String ":" rest) ":" = true.
Proof.
  induction s as [| c r IH]; intros H; [discriminate H |].
  cbn [append includes String.prefix] in *.
  destruct (ascii_dec ":" c) as [_ | _].
  - destruct r; reflexivity.
  - cbn [orb] in *. now apply IH.
Qed.

(** X10: only the first two colon-separated parts of a bound are read: what
    follows a further colon (seconds, say) does not change the answer. *)
Theorem isOpen_ignores_further_parts
        (s rest : string) (other : option string) (now : Date) :
  includes s ":" = true ->
  isOpen (Some (s ++ String ":" rest)) other now = isOpen (Some s) other now
  /\ isOpen other (Some (s ++ String ":" rest)) now = isOpen other (Some s) now.
Proof.
  intros H. unfold isOpen.
  rewrite !(parts_ignore_the_rest s rest) by (assumption || lia).
  rewrite (falsy_with_colon s H),
    (falsy_with_colon _ (includes_app s rest H)).
  split; reflexivity.
Qed.

(** Opening at 09:00:30 is opening at 09:00. *)
Lemma isOpen_ignores_further_parts_witness :
  isOpen (Some ("09:00" ++ String ":" "30")) (Some "17:00") (date_of_minute 600)
  = isOpen (Some "09:00") (Some "17:00") (date_of_minute 600).
Proof.
  apply (@isOpen_ignores_further_parts "09:00" "30" (Some "17:00")
           (date_of_minute 600)).
  reflexivity.
Defined.

Lemma open_minutes_upto_succ (n : nat) (o c : option string) :
  OpenMinutes.open_minutes_upto (S n) o c
  = (OpenMinutes.open_minutes_upto n o c
     ++ (if isOpen o c (date_of_minute (Z.of_nat n))
         then [Z.of_nat n] else []))%list.
Proof.
  unfold OpenMinutes.open_minutes_upto.
  rewrite seq_S, map_app, filter_app. reflexivity.
Qed.

(** How many of the first [n] minutes of the day fall in the window. *)
Lemma open_minutes_upto_length (oh om ch cm : Z) (n : nat) :
  0 <= oh < 24 -> 0 <= om < 60 -> 0 <= ch < 24 -> 0 <= cm < 60 ->
  (n <= 1440)%nat ->
  Z.of_nat (Datatypes.length (OpenMinutes.open_minutes_upto n
                      (Some (hhmm oh om)) (Some (hhmm ch cm))))
  = if minutes ch cm <? minutes oh om
    then Z.min (minutes ch cm) (Z.of_nat n)
         + Z.max 0 (Z.of_nat n - minutes oh om)
    else Z.max 0 (Z.min (minutes ch cm) (Z.of_nat n) - minutes oh om).
Proof.
  intros Hoh Hom Hch Hcm. induction n as [| n IH]; intros Hn.
  - unfold minutes.
    cbn [OpenMinutes.open_minutes_upto seq map filter Datatypes.length].
    by_cases.
  - rewrite open_minutes_upto_succ, List.length_app, Nat2Z.inj_add, IH by lia.
    rewrite isOpen_window by (assumption || lia).
    unfold minutes. rewrite Nat2Z.inj_succ.
    by_cases; cbn [Datatypes.length]; lia.
Qed.

(** X8: a window is open for [(close - open) mod 1440] minutes of the day: the
    span from open to close, over midnight if need be, and not at all when
    the two bounds coincide. *)
Theorem open_minutes_per_day (oh om ch cm : Z) :
  0 <= oh < 24 -> 0 <= om < 60 -> 0 <= ch < 24 -> 0 <= cm < 60 ->
  Z.of_nat (Datatypes.length (OpenMinutes.open_minutes
                      (Some (hhmm oh om)) (Some (hhmm ch cm))))
  = (minutes ch cm - minutes oh om) mod 1440.
Proof.
  intros Hoh Hom Hch Hcm. unfold OpenMinutes.open_minutes.
  rewrite open_minutes_upto_length by (assumption || lia).
  unfold minutes. change (Z.of_nat 1440) with 1440.
  by_cases.
  - apply Z.mod_unique with (q := -1); lia.
  - apply Z.mod_unique with (q := 0); lia.
Qed.

(** From 22:00 to 02:00: four hours. *)
Lemma open_minutes_per_day_witness :
  Z.of_nat (Datatypes.length (OpenMinutes.open_minutes
                      (Some (hhmm 22 0)) (Some (hhmm 2 0))))
  = (minutes 2 0 - minutes 22 0) mod 1440.
Proof.
  apply open_minutes_per_day; lia.
Defined.

End TimeWindowMore.

(* ------------------------------------------------------------------ *)
(** ** More on ranking by distance *)
(* ------------------------------------------------------------------ *)

Module GeolocationMore.

Import Geolocation.

Section Classes.

Variable A : Type.
Variable cmp : A -> A -> number.
Variable p : A -> bool.

(** No element of the class [p] sorts after another one of the class. *)
Hypothesis level :
  forall x y, p x = true -> p y = true -> sorts_after cmp x y = false.

Lemma filter_insert_level (x : A) (l : list A) :
  filter p (insert cmp x l) = filter p (x :: l).
Proof.
  induction l as [| y r IH]; [reflexivity |].
  cbn [insert]. destruct (sorts_after cmp x y) eqn:E; [| reflexivity].
  cbn [filter] in *. rewrite IH.
  destruct (p x) eqn:Px, (p y) eqn:Py; try reflexivity.
  now rewrite (level Px Py) in E.
Qed.

Lemma filter_sort_level (l : list A) :
  filter p (sort cmp l) = filter p l.
Proof.
  induction l as [| x l IH]; [reflexivity |].
  rewrite SortFacts.sort_cons, filter_insert_level.
  cbn [filter]. now rewrite IH.
Qed.

End Classes.

Lemma strict_eq_level (a b d : number) :
  strict_eq a d = true -> strict_eq b d = true ->
  ngt (nsub a b) (ofZ 0) = false.
Proof.
  destruct a as [| s | x], b as [| t | y], d as [| u | z];
    cbn [strict_eq]; try discriminate.
  - destruct s, t, u; cbn; congruence.
  - rewrite !Qeq_bool_iff. intros Hx Hy.
    unfold ngt. cbn [nsub nneg nadd nlt ofZ].
    apply Conversions.Qltb_false. change (inject_Z 0) with 0%Q.
    rewrite Hx, Hy. lra.
Qed.

(** The distance depends on the coordinates alone. *)
Lemma rounded_distance_same_place
      (M : HostMath) (c : LatLng.t) (x y : Listing) :
  lat x = lat y -> lng x = lng y ->
  rounded_distance M c x = rounded_distance M c y.
Proof. unfold rounded_distance. now intros -> ->. Qed.

(** X11: when the computed distance of every listing is a number, the
    result is in ascending order of distance and the sort is stable: the
    listings at any one distance come out in the order in which they went
    in.  The two together fix the result. *)
Theorem sortByDistance_stable
        (M : HostMath) (c : LatLng.t) (l : list Listing) (d : number) :
  Forall (fun x => isNaN (rounded_distance M c x) = false) l ->
  StronglySorted ascending (sortByDistance M (Some c) l)
  /\ filter (fun x => strict_eq (distance_of x) d)
            (sortByDistance M (Some c) l)
     = filter (fun x => strict_eq (distance_of x) d) (map (annotate M c) l).
Proof.
  intros Hn. unfold sortByDistance. split.
  - apply SortFacts.sort_strongly_sorted
      with (carrier := fun x => isNaN (distance_of x) = false).
    + intros x y z. apply NumberFacts.nge_trans.
    + intros x y Hx Hy. now apply GeolocationFacts.ascending_of_after.
    + intros x y Hx Hy. now apply GeolocationFacts.ascending_of_not_after.
    + apply Forall_forall. intros y Hy. apply in_map_iff in Hy.
      destruct Hy as (x & <- & Hx). rewrite Forall_forall in Hn.
      rewrite GeolocationFacts.distance_of_annotate. now apply Hn.
  - apply filter_sort_level.
    intros x y Hx Hy. unfold sorts_after, by_distance.
    now apply strict_eq_level with d.
Qed.

(** Two listings at the same place behind a nearer one. *)
Lemma sortByDistance_stable_witness :
  filter (fun x => strict_eq (distance_of x) (Fin (1737 # 100)))
         (sortByDistance RefMath.host (Some visitor)
            [listing_B; listing_A; place "B2" (Some (40 # 100, 3270 # 100))])
  = filter (fun x => strict_eq (distance_of x) (Fin (1737 # 100)))
           (map (annotate RefMath.host visitor)
                [listing_B; listing_A;
                 place "B2" (Some (40 # 100, 3270 # 100))]).
Proof.
  apply (@sortByDistance_stable RefMath.host visitor
           [listing_B; listing_A; place "B2" (Some (40 # 100, 3270 # 100))]
           (Fin (1737 # 100))).
  constructor; [now rewrite GeolocationFacts.distance_B |].
  constructor; [now rewrite GeolocationFacts.distance_A |].
  constructor; [| constructor].
  rewrite (@rounded_distance_same_place RefMath.host visitor
             (place "B2" (Some (40 # 100, 3270 # 100))) listing_B
             eq_refl eq_refl).
  now rewrite GeolocationFacts.distance_B.
Defined.

Lemma annotate_without_distance (M : HostMath) (c : LatLng.t) (x : Listing) :
  annotate M c (without_distance x) = annotate M c x.
Proof. reflexivity. Qed.

(** X12: with a position, a [distance] left by an earlier ranking plays no
    part: lists that differ in that field only are ranked alike. *)
Theorem sortByDistance_ignores_old_distance
        (M : HostMath) (c : LatLng.t) (l1 l2 : list Listing) :
  map without_distance l1 = map without_distance l2 ->
  sortByDistance M (Some c) l1 = sortByDistance M (Some c) l2.
Proof.
  intros H. unfold sortByDistance. f_equal.
  assert (E : forall l, map (annotate M c) l
                        = map (annotate M c) (map without_distance l)).
  { intros l. rewrite map_map. apply map_ext. intros x.
    now rewrite annotate_without_distance. }
  now rewrite (E l1), (E l2), H.
Qed.

(** The scenario's listings, fresh and as ranked from elsewhere. *)
Lemma sortByDistance_ignores_old_distance_witness :
  sortByDistance RefMath.host (Some visitor)
    [with_distance listing_B (Fin 3); listing_A]
  = sortByDistance RefMath.host (Some visitor) [listing_B; listing_A].
Proof.
  apply (@sortByDistance_ignores_old_distance RefMath.host visitor
           [with_distance listing_B (Fin 3); listing_A]
           [listing_B; listing_A]).
  reflexivity.
Defined.

End GeolocationMore.

(* ------------------------------------------------------------------ *)
(** ** The position hook and the page *)
(* ------------------------------------------------------------------ *)

Module HomePageFacts.

Import HomePageState.

Lemma step_keeps_active_iff_fix (supported : bool) (pg : page) (e : event) :
  GeoHook.gpsActive (gps pg) = GeoHook.has_fix (gps pg) ->
  GeoHook.gpsActive (gps (step supported pg e))
  = GeoHook.has_fix (gps (step supported pg e)).
Proof.
  intros H. destruct e; cbn [step]; try exact H; try reflexivity.
  unfold handleGPS.
  destruct (GeoHook.gpsActive (gps pg)) eqn:E; [reflexivity |].
  destruct supported; cbn; now rewrite E.
Qed.

Lemma run_keeps_active_iff_fix (supported : bool) (es : list event) :
  forall pg,
    GeoHook.gpsActive (gps pg) = GeoHook.has_fix (gps pg) ->
    GeoHook.gpsActive (gps (run supported es pg))
    = GeoHook.has_fix (gps (run supported es pg)).
Proof.
  induction es as [| e es IH]; intros pg H; [exact H |].
  apply IH. now apply step_keeps_active_iff_fix.
Qed.

(** X13: whatever happens to the page, the flag [gpsActive] is up exactly when
    a position is held; so the page shows the filtered listings ranked by
    the position it holds, and as they are when it holds none. *)
Theorem active_iff_fix
        (supported : bool) (es : list event) (M : Geolocation.HostMath) :
  GeoHook.gpsActive (gps (run supported es initial))
  = GeoHook.has_fix (gps (run supported es initial))
  /\ displayed M (run supported es initial)
     = Geolocation.sortByDistance M
         (GeoHook.coords (gps (run supported es initial)))
         (Filter.filtered (criteria (run supported es initial))
                          (restaurants (run supported es initial))).
Proof.
  assert (H : GeoHook.gpsActive (gps (run supported es initial))
              = GeoHook.has_fix (gps (run supported es initial)))
    by now apply run_keeps_active_iff_fix.
  split; [exact H |].
  unfold displayed, HomePage.displayed. rewrite H. unfold GeoHook.has_fix.
  now destruct (GeoHook.coords (gps (run supported es initial))).
Qed.

(** X14: a failed request, typing, a category chip and the arrival of the
    listings leave the position, and with it the ranking, as they were. *)
Theorem quiet_events_keep_the_fix
        (supported : bool) (es : list event) (pg : page) :
  forallb quiet es = true ->
  GeoHook.coords (gps (run supported es pg)) = GeoHook.coords (gps pg)
  /\ GeoHook.gpsActive (gps (run supported es pg))
     = GeoHook.gpsActive (gps pg).
Proof.
  revert pg. induction es as [| e es IH]; intros pg H; [now split |].
  cbn [forallb] in H. apply andb_true_iff in H. destruct H as [He Hes].
  change (run supported (e :: es) pg)
    with (run supported es (step supported pg e)).
  destruct (IH (step supported pg e) Hes) as [-> ->].
  destruct e; try discriminate He; now split.
Qed.

(** A request that times out after a position was found. *)
Lemma quiet_events_keep_the_fix_witness :
  GeoHook.coords
    (gps (run true [FixFailed 3; Search "pilau"%string]
              (run true [PressGPS; Fix (Fin (30 # 100)) (Fin (3258 # 100))]
                   initial)))
  = GeoHook.coords
      (gps (run true [PressGPS; Fix (Fin (30 # 100)) (Fin (3258 # 100))]
                initial)).
Proof.
  apply (@quiet_events_keep_the_fix true
           [FixFailed 3; Search "pilau"%string]
           (run true [PressGPS; Fix (Fin (30 # 100)) (Fin (3258 # 100))]
                initial)).
  reflexivity.
Defined.

Section Banner.

Variable featured_flag : Listing -> bool.

Lemma featured_none (shown : list Listing) :
  featured featured_flag shown = None <-> shown = [].
Proof.
  unfold featured. destruct (find featured_flag shown) eqn:E.
  - split; [discriminate |]. intros ->. discriminate E.
  - destruct shown; split; congruence.
Qed.

(** X15: the banner shows nothing exactly when nothing is listed; otherwise it
    shows a listing of the list: the first one flagged as featured, or,
    when none is flagged, the first listing. *)
Theorem featured_choice (shown : list Listing) :
  (featured featured_flag shown = None <-> shown = [])
  /\ (forall r,
        featured featured_flag shown = Some r ->
        In r shown
        /\ (featured_flag r = true ->
            exists before after,
              shown = before ++ r :: after
              /\ Forall (fun x => featured_flag x = false) before)
        /\ (featured_flag r = false ->
            Forall (fun x => featured_flag x = false) shown
            /\ hd_error shown = Some r)).
Proof.
  split; [apply featured_none |]. unfold featured.
  intros r H.
  assert (Hfirst : forall l x,
             find featured_flag l = Some x ->
             exists before after,
               l = before ++ x :: after
               /\ Forall (fun y => featured_flag y = false) before).
  { induction l as [| y l IH]; intros x Hx; [discriminate Hx |].
    cbn [find] in Hx. destruct (featured_flag y) eqn:Ey.
    - injection Hx as <-. now exists [], l.
    - destruct (IH x Hx) as (b & a & -> & Hb).
      exists (y :: b), a. split; [reflexivity | now constructor]. }
  assert (Hnone : forall l,
             find featured_flag l = None ->
             Forall (fun y => featured_flag y = false) l).
  { induction l as [| y l IH]; intros Hl; [constructor |].
    cbn [find] in Hl. destruct (featured_flag y) eqn:Ey; [discriminate Hl |].
    constructor; [assumption | now apply IH]. }
  destruct (find featured_flag shown) as [x |] eqn:E.
  + injection H as <-. pose proof (find_some _ _ E) as [Hin Hflag].
    split; [assumption |]. split.
    * intros _. now apply Hfirst.
    * intros Hf. congruence.
  + destruct shown as [| y l]; [discriminate H |]. injection H as <-.
    split; [now left |]. split.
    * intros Hf. pose proof (Hnone _ E) as Hall.
      inversion Hall; congruence.
    * intros _. split; [now apply Hnone | reflexivity].
Qed.

(** X16: the banner is missing exactly when no listing passes the filter,
    with or without a position. *)
Theorem banner_iff_some_listing
        (M : Geolocation.HostMath) (pg : page) :
  featured featured_flag (displayed M pg) = None
  <-> Filter.filtered (criteria pg) (restaurants pg) = [].
Proof.
  rewrite featured_none.
  pose proof (GeolocationFacts.displayed_ranks_the_filtered M
                (GeoHook.gpsActive (gps pg)) (GeoHook.coords (gps pg))
                (criteria pg) (restaurants pg)) as P.
  apply Permutation_length in P. rewrite !length_map in P.
  fold (displayed M pg) in P.
  split; intros E; rewrite E in P; cbn [Datatypes.length] in P.
  - now apply length_zero_iff_nil.
  - apply length_zero_iff_nil. now rewrite P.
Qed.

End Banner.

End HomePageFacts.

(* ------------------------------------------------------------------ *)
(** ** More on the address lookup *)
(* ------------------------------------------------------------------ *)

Module DashboardMore.

Import Dashboard.

Local Open Scope string_scope.

Lemma handleGeocode_on_hit
      (network : string -> Reply) (w : World) (h : Hit) (rest : list Hit) :
  String.eqb (address (form w)) "" = false ->
  network (query_of (form w)) = Body (JArray (h :: rest)) ->
  handleGeocode network w
  = (Normal tt,
     {| form := {| address := address (form w); city := city (form w);
                   lat := parseFloat (hit_lat h);
                   lng := parseFloat (hit_lon h) |};
        requests := (requests w ++ [query_of (form w)])%list;
        toasts := (toasts w ++ ["📍 Map updated to address"])%list;
        console := console w |}).
Proof.
  intros Ha Hn. unfold handleGeocode, bind, get_form. rewrite Ha.
  unfold try_catch, fetch. rewrite Hn. reflexivity.
Qed.

Lemma handleGeocode_on_failure (network : string -> Reply) (w : World) :
  lookup_fails network w -> form (snd (handleGeocode network w)) = form w.
Proof.
  intros Hf. unfold handleGeocode, bind, get_form.
  destruct (String.eqb (address (form w)) ""); [reflexivity |].
  unfold try_catch, fetch.
  destruct Hf as [(e & [He | He]) | (data & Hd & Hn)].
  - now rewrite He.
  - now rewrite He.
  - rewrite Hd. cbn [json ret]. now rewrite Hn.
Qed.

(** X6: with a first hit, the lookup stores the coordinates read from it,
    whatever they parse to and whatever hits follow, keeps the address and
    the district, and shows one toast; it sends one request and logs
    nothing. *)
Theorem handleGeocode_first_hit
        (network : string -> Reply) (w : World) (h : Hit) (rest : list Hit) :
  String.eqb (address (form w)) "" = false ->
  network (query_of (form w)) = Body (JArray (h :: rest)) ->
  handleGeocode network w
  = (Normal tt,
     {| form := {| address := address (form w); city := city (form w);
                   lat := parseFloat (hit_lat h);
                   lng := parseFloat (hit_lon h) |};
        requests := (requests w ++ [query_of (form w)])%list;
        toasts := (toasts w ++ ["📍 Map updated to address"])%list;
        console := console w |}).
Proof.
  intros Ha Hn. unfold handleGeocode, bind, get_form. rewrite Ha.
  unfold try_catch, fetch. rewrite Hn. cbn [json ret first_hit].
  reflexivity.
Qed.

(** A service that knows the place. *)
Lemma handleGeocode_first_hit_witness :
  form (snd (handleGeocode
               (fun _ => Body (JArray [{| hit_lat := "0.3103";
                                          hit_lon := "32.5816" |}]))
               sample_world))
  = {| address := "Plot 4, Acacia Avenue"; city := "Kampala";
       lat := parseFloat "0.3103"; lng := parseFloat "32.5816" |}.
Proof.
  rewrite (@handleGeocode_first_hit
             (fun _ => Body (JArray [{| hit_lat := "0.3103";
                                        hit_lon := "32.5816" |}]))
             sample_world
             {| hit_lat := "0.3103"; hit_lon := "32.5816" |} []);
    reflexivity.
Defined.


End DashboardMore.

(* ------------------------------------------------------------------ *)
(** ** The form and its map together *)
(* ------------------------------------------------------------------ *)

Module PinnedFormFacts.

Import PinnedForm.

Lemma new_calls_app (st st' : OwnerMap.state) (cs : list OwnerMap.call) :
  OwnerMap.calls st' = OwnerMap.calls st ++ cs -> new_calls st st' = cs.
Proof.
  intros H. unfold new_calls. rewrite H, skipn_app, skipn_all, Nat.sub_diag.
  reflexivity.
Qed.

(** What a drag or a tap leaves behind: the marker at the raw position,
    the pin state rounded, and the handler told of the rounded position. *)
Lemma handle_effect (e : OwnerMap.edit) (st : OwnerMap.state) (a b : Q) :
  OwnerMap.raw e = OwnerMap.at_ (Fin a) (Fin b) ->
  OwnerMap.onPinChange st = true ->
  let p := OwnerMap.at_ (Fin (round_dec 6 a)) (Fin (round_dec 6 b)) in
  OwnerMap.marker (OwnerMap.handle e st) = OwnerMap.at_ (Fin a) (Fin b)
  /\ OwnerMap.pinCoords (OwnerMap.handle e st) = p
  /\ OwnerMap.mounted (OwnerMap.handle e st) = OwnerMap.mounted st
  /\ OwnerMap.zoom (OwnerMap.handle e st) = OwnerMap.zoom st
  /\ forall w, deliver (new_calls st (OwnerMap.handle e st)) w
               = pin_changed p w.
Proof.
  intros Hraw Hh p.
  assert (Hp : OwnerMap.at_ (parseFloat (toFixed 6 (Fin a)))
                            (parseFloat (toFixed 6 (Fin b))) = p)
    by (unfold p; now rewrite !Conversions.parseFloat_toFixed).
  destruct e as [q | q]; cbn [OwnerMap.raw] in Hraw; subst q.
  - unfold OwnerMap.handle, OwnerMap.on_dragend, OwnerMap.dragged_to,
      OwnerMap.updatePin.
    cbn [OwnerMap.marker OwnerMap.pinCoords OwnerMap.mounted OwnerMap.zoom
         OwnerMap.onPinChange OwnerMap.calls OwnerMap.at_
         LatLng.lat LatLng.lng].
    fold (OwnerMap.at_ (parseFloat (toFixed 6 (Fin a)))
                       (parseFloat (toFixed 6 (Fin b)))).
    rewrite Hp, Hh. repeat split. intros w.
    erewrite new_calls_app; [| cbn [OwnerMap.calls]; reflexivity].
    reflexivity.
  - unfold OwnerMap.handle, OwnerMap.on_click, OwnerMap.updatePin.
    cbn [OwnerMap.marker OwnerMap.pinCoords OwnerMap.mounted OwnerMap.zoom
         OwnerMap.onPinChange OwnerMap.calls OwnerMap.at_
         LatLng.lat LatLng.lng].
    fold (OwnerMap.at_ (parseFloat (toFixed 6 (Fin a)))
                       (parseFloat (toFixed 6 (Fin b)))).
    rewrite Hp, Hh. repeat split. intros w.
    erewrite new_calls_app;
      [| cbn [OwnerMap.calls]; rewrite <- app_assoc; reflexivity].
    reflexivity.
Qed.

Lemma same_value_refl (x : number) : same_value x x = true.
Proof.
  destruct x as [| s | q]; cbn [same_value]; [reflexivity | now destruct s |].
  apply Qeq_bool_iff. reflexivity.
Qed.

Lemma same_props_refl (p : LatLng.t) : same_props p p = true.
Proof. unfold same_props. now rewrite !same_value_refl. Qed.

Lemma form_props_pin_changed (p : LatLng.t) (w : Dashboard.World)
      (st : OwnerMap.state) (q : LatLng.t) :
  form_props {| world := pin_changed p w; pin := st; props := q |} = p.
Proof. now destruct p. Qed.

Section Leaflet.

Variable moves : LatLng.t -> Z -> bool.

(** A page rendered with the coordinates of its form is not touched by a
    further render. *)
Lemma render_rendered (pg : page) :
  props pg = form_props pg -> render moves pg = Some pg.
Proof. intros H. unfold render. now rewrite H, same_props_refl. Qed.

(** The effect on a mounted map, for props the widget accepts and a move
    it carries out: the marker ends strictly equal to the props, the pin
    state follows if it moves, and [onPinChange] is not called. *)
Lemma sync_accepted (la lo : number) (st : OwnerMap.state) :
  OwnerMap.mounted st = true ->
  OwnerMap.refused (OwnerMap.at_ la lo) = false ->
  moves (OwnerMap.at_ la lo) (OwnerMap.zoom st) = true ->
  exists st',
    OwnerMap.sync moves la lo st = Some st'
    /\ strict_eq (LatLng.lat (OwnerMap.marker st')) la = true
    /\ strict_eq (LatLng.lng (OwnerMap.marker st')) lo = true
    /\ (OwnerMap.pinCoords st = OwnerMap.at_ la lo ->
        OwnerMap.pinCoords st' = OwnerMap.at_ la lo)
    /\ (forall p, In (OwnerMap.OnPinChange p) (OwnerMap.calls st') ->
                  In (OwnerMap.OnPinChange p) (OwnerMap.calls st)).
Proof.
  intros Hm Hr Hv. unfold OwnerMap.sync. rewrite Hm, Hr, Hv.
  unfold OwnerMap.refused in Hr.
  cbn [OwnerMap.at_ LatLng.lat LatLng.lng] in Hr.
  apply orb_false_iff in Hr. destruct Hr as [Ha Hb].
  destruct (strict_ne (LatLng.lat (OwnerMap.marker st)) la
            || strict_ne (LatLng.lng (OwnerMap.marker st)) lo) eqn:E.
  - eexists. split; [reflexivity |].
    cbn [OwnerMap.marker OwnerMap.pinCoords OwnerMap.calls OwnerMap.at_
         LatLng.lat LatLng.lng].
    rewrite (OwnerMapFacts.strict_eq_same la Ha),
      (OwnerMapFacts.strict_eq_same lo Hb).
    repeat split.
    intros p H. apply in_app_or in H. destruct H as [H | H]; [exact H |].
    cbn [In] in H. repeat (destruct H as [H | H]; [discriminate H |]).
    now elim H.
  - apply orb_false_iff in E. destruct E as [E1 E2].
    unfold strict_ne in E1, E2. apply negb_false_iff in E1, E2.
    exists st. now repeat split.
Qed.

(** With a [NaN] among the props the effect on a mounted map throws. *)
Lemma sync_refused (la lo : number) (st : OwnerMap.state) :
  OwnerMap.mounted st = true ->
  OwnerMap.refused (OwnerMap.at_ la lo) = true ->
  OwnerMap.sync moves la lo st = None.
Proof.
  intros Hm Hr. unfold OwnerMap.sync. rewrite Hm, Hr.
  unfold OwnerMap.refused in Hr.
  cbn [OwnerMap.at_ LatLng.lat LatLng.lng] in Hr.
  apply orb_true_iff in Hr.
  destruct Hr as [Hr | Hr];
    [destruct la | destruct lo]; try discriminate Hr;
    now rewrite OwnerMapFacts.strict_ne_NaN, ?orb_true_r.
Qed.

(** X3: a drag or a tap at the raw position [(a, b)] leaves the form and
    the pin state with [(a, b)] rounded to six decimals, the address and
    the district as before.  When the rounded position, off zero, is the
    one the map was last rendered with, the effect does not run and the
    marker stays at the raw position, off the form's by up to half a
    millionth of a degree.  When it is a new one and the widget carries
    out the move, the effect runs and leaves the marker strictly equal to
    the form's position; a further render changes nothing. *)
Theorem edit_moves_the_marker_for_new_props
        (e : OwnerMap.edit) (pg : page) (a b : Q) :
  OwnerMap.raw e = OwnerMap.at_ (Fin a) (Fin b) ->
  OwnerMap.mounted (pin pg) = true ->
  OwnerMap.onPinChange (pin pg) = true ->
  let p := OwnerMap.at_ (Fin (round_dec 6 a)) (Fin (round_dec 6 b)) in
  (same_props (props pg) p = true ->
   off_zero p = true ->
   exists pg',
     edit moves e pg = Some pg'
     /\ form_props pg' = p
     /\ Dashboard.address (form_of pg') = Dashboard.address (form_of pg)
     /\ Dashboard.city (form_of pg') = Dashboard.city (form_of pg)
     /\ OwnerMap.pinCoords (pin pg') = p
     /\ OwnerMap.marker (pin pg') = OwnerMap.at_ (Fin a) (Fin b))
  /\ (same_props (props pg) p = false ->
      moves p (OwnerMap.zoom (pin pg)) = true ->
      exists pg',
        edit moves e pg = Some pg'
        /\ form_props pg' = p
        /\ Dashboard.address (form_of pg') = Dashboard.address (form_of pg)
        /\ Dashboard.city (form_of pg') = Dashboard.city (form_of pg)
        /\ OwnerMap.pinCoords (pin pg') = p
        /\ strict_eq (LatLng.lat (OwnerMap.marker (pin pg')))
                     (Fin (round_dec 6 a)) = true
        /\ strict_eq (LatLng.lng (OwnerMap.marker (pin pg')))
                     (Fin (round_dec 6 b)) = true
        /\ render moves pg' = Some pg').
Proof.
  intros Hraw Hm Hh p.
  destruct (handle_effect e (pin pg) Hraw Hh) as (Hmk & Hpc & Hmo & Hz & Hd).
  fold p in Hpc, Hd.
  unfold edit. rewrite Hd. unfold render.
  rewrite form_props_pin_changed. cbn [props]. split.
  - intros Hs _. rewrite Hs. eexists. split; [reflexivity |].
    rewrite form_props_pin_changed. now repeat split.
  - intros Hs Hv. rewrite Hs.
    unfold form_of. cbn [world pin pin_changed Dashboard.form
                         Dashboard.lat Dashboard.lng].
    unfold p at 1 2. cbn [OwnerMap.at_ LatLng.lat LatLng.lng].
    rewrite Hm in Hmo. rewrite <- Hz in Hv.
    destruct (@sync_accepted (Fin (round_dec 6 a)) (Fin (round_dec 6 b))
                (OwnerMap.handle e (pin pg)) Hmo eq_refl Hv)
      as (st' & Hsync & S1 & S2 & S3 & _).
    rewrite Hsync. eexists. split; [reflexivity |].
    split; [apply form_props_pin_changed |].
    split; [reflexivity |]. split; [reflexivity |].
    cbn [pin]. split; [now apply S3 |].
    split; [exact S1 |]. split; [exact S2 |].
    apply render_rendered. cbn [props]. symmetry.
    apply form_props_pin_changed.
Qed.

(** X4: a lookup that finds a first hit puts the coordinates read from it
    into the form.  When they are the ones, off zero, that the map was last
    rendered with, the effect does not run and the map stays as it is,
    wherever its marker is.  When they are new, the widget accepts them
    and carries out the move, the marker ends strictly equal to them, the
    map is not told to report a change, and a further render changes
    nothing.  When they are new and one of them is [NaN], the effect
    throws. *)
Theorem geocode_moves_the_marker
        (network : string -> Dashboard.Reply) (pg : page)
        (h : Dashboard.Hit) (rest : list Dashboard.Hit) :
  String.eqb (Dashboard.address (form_of pg)) "" = false ->
  network (Dashboard.query_of (form_of pg))
  = Dashboard.Body (Dashboard.JArray (h :: rest)) ->
  OwnerMap.mounted (pin pg) = true ->
  let p := OwnerMap.at_ (parseFloat (Dashboard.hit_lat h))
                        (parseFloat (Dashboard.hit_lon h)) in
  (same_props (props pg) p = true ->
   off_zero p = true ->
   exists pg',
     geocode moves network pg = Some pg'
     /\ form_props pg' = p
     /\ pin pg' = pin pg)
  /\ (same_props (props pg) p = false ->
      OwnerMap.refused p = false ->
      moves p (OwnerMap.zoom (pin pg)) = true ->
      exists pg',
        geocode moves network pg = Some pg'
        /\ form_props pg' = p
        /\ strict_eq (LatLng.lat (OwnerMap.marker (pin pg')))
                     (LatLng.lat p) = true
        /\ strict_eq (LatLng.lng (OwnerMap.marker (pin pg')))
                     (LatLng.lng p) = true
        /\ (forall q, In (OwnerMap.OnPinChange q)
                         (OwnerMap.calls (pin pg')) ->
                      In (OwnerMap.OnPinChange q) (OwnerMap.calls (pin pg)))
        /\ render moves pg' = Some pg')
  /\ (same_props (props pg) p = false ->
      OwnerMap.refused p = true ->
      geocode moves network pg = None).
Proof.
  intros Ha Hn Hm p. unfold geocode, form_of in *.
  rewrite (@DashboardMore.handleGeocode_on_hit network (world pg) h rest Ha Hn).
  unfold render, form_props, form_of.
  cbn [world pin props snd Dashboard.form Dashboard.lat Dashboard.lng].
  fold p. split; [| split].
  - intros Hs _. rewrite Hs. eexists. split; [reflexivity |]. now split.
  - intros Hs Hr Hv. rewrite Hs.
    destruct (@sync_accepted (parseFloat (Dashboard.hit_lat h))
                (parseFloat (Dashboard.hit_lon h)) (pin pg) Hm Hr Hv)
      as (st' & Hsync & S1 & S2 & _ & S4).
    rewrite Hsync. eexists. split; [reflexivity |].
    split; [reflexivity |].
    cbn [pin]. split; [exact S1 |]. split; [exact S2 |].
    split; [exact S4 |].
    now apply render_rendered.
  - intros Hs Hr. rewrite Hs.
    now rewrite (@sync_refused (parseFloat (Dashboard.hit_lat h))
                   (parseFloat (Dashboard.hit_lon h)) (pin pg) Hm Hr).
Qed.

(** X5: a lookup that fails leaves the form as it is; on a page whose map
    agrees with its form, the map stays as it is too. *)
Theorem geocode_failure_leaves_the_map
        (network : string -> Dashboard.Reply) (pg : page) :
  Dashboard.lookup_fails network (world pg) ->
  render moves pg = Some pg ->
  exists pg',
    geocode moves network pg = Some pg'
    /\ form_of pg' = form_of pg
    /\ pin pg' = pin pg.
Proof.
  intros Hf Hr. unfold geocode, render, form_props, form_of in *.
  cbn [world pin props].
  rewrite (@DashboardMore.handleGeocode_on_failure network (world pg) Hf).
  destruct (same_props (props pg)
              (OwnerMap.at_ (Dashboard.lat (Dashboard.form (world pg)))
                            (Dashboard.lng (Dashboard.form (world pg))))).
  - eexists. split; [reflexivity |].
    cbn [world pin].
    split; [apply DashboardMore.handleGeocode_on_failure, Hf | reflexivity].
  - destruct (OwnerMap.sync moves
                (Dashboard.lat (Dashboard.form (world pg)))
                (Dashboard.lng (Dashboard.form (world pg))) (pin pg))
      as [st |]; [| discriminate Hr].
    injection Hr as Hr. eexists. split; [reflexivity |].
    cbn [world pin].
    split; [apply DashboardMore.handleGeocode_on_failure, Hf |].
    now apply (f_equal pin) in Hr.
Qed.

End Leaflet.

(** A tap less than a millionth of a degree from the pin of the sample
    form: the form keeps its coordinates and the marker stays where the
    tap was. *)
Lemma edit_moves_the_marker_for_new_props_witness :
  exists pg',
    edit OwnerMap.always near_tap (mount Dashboard.sample_world) = Some pg'
    /\ form_props pg'
       = OwnerMap.at_ (Fin (round_dec 6 (31870004 # 100000000)))
                      (Fin (round_dec 6 (325840001 # 10000000)))
    /\ Dashboard.address (form_of pg')
       = Dashboard.address (form_of (mount Dashboard.sample_world))
    /\ Dashboard.city (form_of pg')
       = Dashboard.city (form_of (mount Dashboard.sample_world))
    /\ OwnerMap.pinCoords (pin pg')
       = OwnerMap.at_ (Fin (round_dec 6 (31870004 # 100000000)))
                      (Fin (round_dec 6 (325840001 # 10000000)))
    /\ OwnerMap.marker (pin pg')
       = OwnerMap.at_ (Fin (31870004 # 100000000))
                      (Fin (325840001 # 10000000)).
Proof.
  apply (proj1 (@edit_moves_the_marker_for_new_props OwnerMap.always
                  near_tap (mount Dashboard.sample_world)
                  (31870004 # 100000000) (325840001 # 10000000)
                  eq_refl eq_refl eq_refl));
    vm_compute; reflexivity.
Defined.

(** The service knows the place of the sample form. *)
Lemma geocode_moves_the_marker_witness :
  exists pg',
    geocode OwnerMap.always
            (fun _ => Dashboard.Body
                        (Dashboard.JArray
                           [{| Dashboard.hit_lat := "0.3103";
                               Dashboard.hit_lon := "32.5816" |}]))
            (mount Dashboard.sample_world) = Some pg'
    /\ form_props pg'
       = OwnerMap.at_ (parseFloat "0.3103") (parseFloat "32.5816")
    /\ strict_eq (LatLng.lat (OwnerMap.marker (pin pg')))
                 (parseFloat "0.3103") = true
    /\ strict_eq (LatLng.lng (OwnerMap.marker (pin pg')))
                 (parseFloat "32.5816") = true
    /\ (forall q, In (OwnerMap.OnPinChange q) (OwnerMap.calls (pin pg')) ->
                  In (OwnerMap.OnPinChange q)
                     (OwnerMap.calls (pin (mount Dashboard.sample_world))))
    /\ render OwnerMap.always pg' = Some pg'.
Proof.
  apply (proj1 (proj2
           (@geocode_moves_the_marker OwnerMap.always
              (fun _ => Dashboard.Body
                          (Dashboard.JArray
                             [{| Dashboard.hit_lat := "0.3103";
                                 Dashboard.hit_lon := "32.5816" |}]))
              (mount Dashboard.sample_world)
              {| Dashboard.hit_lat := "0.3103";
                 Dashboard.hit_lon := "32.5816" |}
              [] eq_refl eq_refl eq_refl)));
    vm_compute; reflexivity.
Defined.

(** The service cannot be reached from the freshly mounted page. *)
Lemma geocode_failure_leaves_the_map_witness :
  exists pg',
    geocode OwnerMap.always Dashboard.unreachable
            (mount Dashboard.sample_world) = Some pg'
    /\ pin pg' = pin (mount Dashboard.sample_world).
Proof.
  destruct (@geocode_failure_leaves_the_map OwnerMap.always
              Dashboard.unreachable (mount Dashboard.sample_world))
    as (pg' & H & _ & Hp).
  - left. exists "Failed to fetch"%string. left. reflexivity.
  - reflexivity.
  - exists pg'. now split.
Defined.

End PinnedFormFacts.

(* ------------------------------------------------------------------ *)
(** ** The diners' map *)
(* ------------------------------------------------------------------ *)

Module DinerMapFacts.

Import DinerMap.

Lemma unplaced_placed (r : Listing) : unplaced r = negb (placed r).
Proof. unfold unplaced, placed. now destruct (lat r), (lng r). Qed.

(** *** Lists of markers *)

Lemma ident_injective (ls : list marker) (x y : marker) :
  NoDup (map ident ls) -> In x ls -> In y ls -> ident x = ident y -> x = y.
Proof.
  induction ls as [| a ls IH]; cbn [map In]; intros Hn Hx Hy He; [easy |].
  apply NoDup_cons_iff in Hn as [Ha Hn].
  destruct Hx as [-> | Hx], Hy as [-> | Hy].
  - reflexivity.
  - exfalso. apply Ha. rewrite He. now apply in_map.
  - exfalso. apply Ha. rewrite <- He. now apply in_map.
  - now apply IH.
Qed.

Lemma NoDup_ident_filter (f : marker -> bool) (ls : list marker) :
  NoDup (map ident ls) -> NoDup (map ident (filter f ls)).
Proof.
  induction ls as [| a ls IH]; cbn [map filter]; intros Hn; [constructor |].
  apply NoDup_cons_iff in Hn as [Ha Hn].
  destruct (f a); [| now apply IH].
  cbn [map]. constructor; [| now apply IH].
  intros Hin. apply Ha. apply in_map_iff in Hin as (x & Hx & Hi).
  apply filter_In in Hi as [Hi _]. rewrite <- Hx. now apply in_map.
Qed.

Lemma filter_filter (f g : marker -> bool) (ls : list marker) :
  filter f (filter g ls) = filter (fun m => g m && f m) ls.
Proof.
  induction ls as [| a ls IH]; cbn [filter]; [reflexivity |].
  destruct (g a); cbn [filter andb]; [destruct (f a) |]; now rewrite IH.
Qed.

Lemma filter_none (f : marker -> bool) (ls : list marker) :
  (forall m, In m ls -> f m = false) -> filter f ls = [].
Proof.
  intros H. rewrite (filter_ext_in f (fun _ => false) ls H).
  apply filter_false.
Qed.

Lemma removeLayers_filter (ids : list nat) (ls : list marker) :
  fold_left (fun ls i => removeLayer i ls) ids ls
  = filter (fun m => negb (existsb (Nat.eqb (ident m)) ids)) ls.
Proof.
  revert ls. induction ids as [| i ids IH]; intros ls; cbn [fold_left existsb].
  - symmetry. apply filter_true.
  - rewrite IH. unfold removeLayer. rewrite filter_filter.
    apply filter_ext. intros m. now rewrite negb_orb.
Qed.

Lemma pins_of_app (a b : list marker) :
  pins_of (a ++ b) = (pins_of a ++ pins_of b)%list.
Proof. apply flat_map_app. Qed.

Lemma pins_of_filter (ls : list marker) :
  pins_of (filter is_pin ls) = pins_of ls.
Proof.
  induction ls as [| a ls IH]; [reflexivity |].
  cbn [filter]. unfold is_pin at 1.
  destruct (shows a) eqn:E; cbn [pins_of flat_map]; rewrite E.
  - cbn [app]. f_equal. exact IH.
  - exact IH.
Qed.

Lemma pins_of_you (ls : list marker) : pins_of (filter is_you ls) = [].
Proof.
  rewrite <- pins_of_filter, filter_filter.
  rewrite filter_none; [reflexivity |].
  intros m _. unfold is_you. now destruct (is_pin m).
Qed.

Lemma filter_pin_you (ls : list marker) : filter is_pin (filter is_you ls) = [].
Proof.
  rewrite filter_filter. apply filter_none.
  intros m _. unfold is_you. now destruct (is_pin m).
Qed.

Lemma filter_you_you (ls : list marker) :
  filter is_you (filter is_you ls) = filter is_you ls.
Proof.
  rewrite filter_filter. apply filter_ext. intros m. now destruct (is_you m).
Qed.

(** *** The markers made for a list of listings *)

Lemma pins_from_ident (n : nat) (rs : list Listing) :
  map ident (pins_from n rs) = seq n (Datatypes.length rs).
Proof.
  revert n. induction rs as [| r rs IH]; intros n; [reflexivity |].
  cbn [pins_from map Datatypes.length seq ident]. now rewrite IH.
Qed.

Lemma pins_from_pin (n : nat) (rs : list Listing) :
  filter is_pin (pins_from n rs) = pins_from n rs.
Proof.
  revert n. induction rs as [| r rs IH]; intros n; [reflexivity |].
  cbn [pins_from filter]. unfold is_pin at 1. cbn [shows]. now rewrite IH.
Qed.

Lemma pins_from_you (n : nat) (rs : list Listing) :
  filter is_you (pins_from n rs) = [].
Proof.
  apply filter_none. intros m Hm. rewrite <- pins_from_pin in Hm.
  apply filter_In in Hm as [_ Hm]. unfold is_you. now rewrite Hm.
Qed.

Lemma pins_from_shown (n : nat) (rs : list Listing) :
  pins_of (pins_from n rs) = map (fun r => (position r, r)) rs.
Proof.
  revert n. induction rs as [| r rs IH]; intros n; [reflexivity |].
  cbn [pins_from pins_of flat_map shows latlng map app]. f_equal.
  apply IH.
Qed.

Lemma pins_from_app (n : nat) (a b : list Listing) :
  pins_from n (a ++ b)
  = (pins_from n a ++ pins_from (n + Datatypes.length a) b)%list.
Proof.
  revert n. induction a as [| r a IH]; intros n; cbn [app pins_from].
  - cbn [Datatypes.length]. now rewrite Nat.add_0_r.
  - cbn [Datatypes.length]. rewrite IH. do 3 f_equal. lia.
Qed.

Section Leaflet.

Variable accepts : LatLng.t -> bool.
Variable moves : view -> bool.

Lemma add_pins_spec (rs : list Listing) :
  forall (ls : list marker) (refs : list nat) (n : nat)
         (ls' : list marker) (refs' : list nat) (n' : nat),
    add_pins accepts rs ls refs n = Some (ls', refs', n') ->
    ls' = (ls ++ pins_from n (filter placed rs))%list
    /\ refs' = (refs ++ seq n (Datatypes.length (filter placed rs)))%list
    /\ n' = (n + Datatypes.length (filter placed rs))%nat.
Proof.
  induction rs as [| r rs IH]; intros ls refs n ls' refs' n' H.
  - cbn in H. injection H as <- <- <-. cbn.
    now rewrite !app_nil_r, Nat.add_0_r.
  - cbn [add_pins filter] in *. rewrite unplaced_placed in H.
    destruct (placed r); cbn [negb] in H.
    + destruct (accepts (position r)); [| discriminate].
      apply IH in H as (-> & -> & ->).
      cbn [pins_from Datatypes.length seq].
      rewrite <- !app_assoc. cbn [app].
      repeat split; lia.
    + now apply IH.
Qed.

(** *** What the effects keep *)

Lemma settled_mount : settled [] None (mount unmounted).
Proof.
  eexists. split; [reflexivity |].
  split; cbn; (constructor || reflexivity).
Qed.

(** The blue pin is the one marker with the identity in [userPin]. *)
Lemma you_by_ident (R : list Listing) (U : option LatLng.t) (st : state)
      (ls : list marker) (i : nat) :
  consistent R U st ls -> userPin st = Some i ->
  forall m, In m ls -> (Nat.eqb (ident m) i = true <-> is_you m = true).
Proof.
  intros C Hp m Hm. pose proof (ref_is_you C) as Hy. rewrite Hp in Hy.
  split.
  - intros He. apply Nat.eqb_eq in He.
    assert (Hi : In i (map ident (filter is_you ls)))
      by (rewrite Hy; now left).
    apply in_map_iff in Hi as (u & Hu & Hin).
    apply filter_In in Hin as [Hin Hyou].
    assert (m = u)
      by (apply (@ident_injective ls m u (distinct C) Hm Hin); congruence).
    now subst.
  - intros Hyou. apply Nat.eqb_eq.
    assert (Hi : In (ident m) (map ident (filter is_you ls)))
      by (apply in_map, filter_In; now split).
    rewrite Hy in Hi. now destruct Hi as [<- | []].
Qed.

Lemma update_pins_settled (R rs : list Listing) (U : option LatLng.t)
      (st st' : state) :
  settled R U st -> update_pins accepts moves rs st = Some st' ->
  settled rs U st'.
Proof.
  intros (m & Hm & C) H. unfold update_pins in H. rewrite Hm in H.
  rewrite (refs_are_pins C), removeLayers_filter in H.
  rewrite (filter_ext_in _ is_you (layers m)) in H.
  2:{ intros x Hx. unfold is_you. f_equal.
      apply eq_true_iff_eq. rewrite existsb_exists. split.
      - intros (j & Hj & He). apply Nat.eqb_eq in He.
        apply in_map_iff in Hj as (y & Hy & Hin).
        apply filter_In in Hin as [Hin Hpin].
        assert (x = y)
          by (apply (@ident_injective (layers m) x y (distinct C) Hx Hin);
              congruence).
        now subst.
      - intros Hp. exists (ident x). split; [| apply Nat.eqb_refl].
        apply in_map, filter_In. now split. }
  destruct (add_pins accepts rs (filter is_you (layers m)) [] (next st))
    as [[[ls refs] n] |] eqn:E; [| discriminate].
  apply add_pins_spec in E as (-> & -> & ->).
  match type of H with (if ?c then _ else _) = _ => destruct c end;
    [discriminate |].
  injection H as <-. eexists. split; [reflexivity |].
  cbn [layers]. split; cbn [next layerRef userPin].
  - rewrite map_app, pins_from_ident. apply Forall_app. split.
    + assert (Hb := below C). rewrite Forall_forall in *.
      intros i Hi. apply in_map_iff in Hi as (x & <- & Hx).
      apply filter_In in Hx as [Hx _].
      specialize (Hb (ident x) (in_map ident _ _ Hx)). lia.
    + apply Forall_forall. intros i Hi. apply in_seq in Hi. lia.
  - rewrite map_app, pins_from_ident. apply NoDup_app.
    + apply NoDup_ident_filter, (distinct C).
    + apply seq_NoDup.
    + intros i Hi Hs. apply in_seq in Hs.
      apply in_map_iff in Hi as (x & <- & Hx).
      apply filter_In in Hx as [Hx _].
      assert (Hb := below C). rewrite Forall_forall in Hb.
      specialize (Hb (ident x) (in_map ident _ _ Hx)). lia.
  - rewrite filter_app, filter_pin_you, pins_from_pin. cbn [app].
    now rewrite pins_from_ident.
  - rewrite filter_app, filter_you_you, pins_from_you, app_nil_r.
    apply (ref_is_you C).
  - rewrite pins_of_app, pins_of_you, pins_from_shown. reflexivity.
  - rewrite filter_app, filter_you_you, pins_from_you, app_nil_r.
    apply (you_latest C).
Qed.

Lemma setLatLng_ident (i : nat) (c : LatLng.t) (ls : list marker) :
  map ident (setLatLng i c ls) = map ident ls.
Proof.
  unfold setLatLng. rewrite map_map. apply map_ext.
  intros m. now destruct (Nat.eqb (ident m) i).
Qed.

Lemma setLatLng_filter (f : marker -> bool) (i : nat) (c : LatLng.t)
      (ls : list marker) :
  (forall m p, f {| ident := ident m; latlng := p; shows := shows m |} = f m) ->
  filter f (setLatLng i c ls) = setLatLng i c (filter f ls).
Proof.
  intros Hf. unfold setLatLng. rewrite filter_map_swap. f_equal.
  apply filter_ext. intros m. destruct (Nat.eqb (ident m) i); [apply Hf | easy].
Qed.

Lemma is_pin_moved (m : marker) (p : LatLng.t) :
  is_pin {| ident := ident m; latlng := p; shows := shows m |} = is_pin m.
Proof. reflexivity. Qed.

Lemma is_you_moved (m : marker) (p : LatLng.t) :
  is_you {| ident := ident m; latlng := p; shows := shows m |} = is_you m.
Proof. reflexivity. Qed.

Lemma update_user_settled (R : list Listing) (U c : option LatLng.t)
      (st st' : state) :
  settled R U st -> update_user accepts moves c st = Some st' ->
  settled R c st'.
Proof.
  intros (m & Hm & C) H. unfold update_user in H. rewrite Hm in H.
  destruct c as [c |].
  - destruct (accepts c && moves (SetView c 14)); [| discriminate].
    destruct (userPin st) as [i |] eqn:Hp.
    + injection H as <-. eexists. split; [reflexivity |].
      cbn [layers].
      assert (Hpins : filter is_pin (setLatLng i c (layers m))
                      = filter is_pin (layers m)).
      { rewrite (setLatLng_filter is_pin i c (layers m) is_pin_moved).
        unfold setLatLng. rewrite <- (map_id (filter is_pin (layers m))) at 2.
        apply map_ext_in. intros x Hx.
        apply filter_In in Hx as [Hx Hpin].
        destruct (Nat.eqb (ident x) i) eqn:E; [| reflexivity].
        apply (you_by_ident C Hp x Hx) in E. unfold is_you in E.
        rewrite Hpin in E. discriminate. }
      split; cbn [next layerRef userPin].
      * rewrite setLatLng_ident. apply (below C).
      * rewrite setLatLng_ident. apply (distinct C).
      * rewrite Hpins. apply (refs_are_pins C).
      * rewrite (setLatLng_filter is_you i c (layers m) is_you_moved).
        rewrite setLatLng_ident. pose proof (ref_is_you C) as Hy.
        now rewrite Hp in Hy.
      * rewrite <- pins_of_filter, Hpins, pins_of_filter.
        apply (pins_latest C).
      * rewrite (setLatLng_filter is_you i c (layers m) is_you_moved).
        pose proof (ref_is_you C) as Hy. rewrite Hp in Hy.
        destruct (filter is_you (layers m)) as [| u [| v l]];
          try discriminate.
        injection Hy as Hu. cbn [setLatLng map].
        apply Nat.eqb_eq in Hu. now rewrite Hu.
    + injection H as <-. eexists. split; [reflexivity |].
      cbn [layers].
      pose proof (ref_is_you C) as Hy. rewrite Hp in Hy.
      apply map_eq_nil in Hy.
      split; cbn [next layerRef userPin].
      * rewrite map_app. apply Forall_app. split.
        -- eapply Forall_impl; [| apply (below C)].
           cbn beta. intros; lia.
        -- cbn. constructor; [lia | constructor].
      * rewrite map_app. apply NoDup_app.
        -- apply (distinct C).
        -- cbn. constructor; [easy | constructor].
        -- intros i Hi [He | []]. cbn in He. assert (Hb := below C).
           rewrite Forall_forall in Hb. specialize (Hb _ Hi).
           cbn beta in Hb. lia.
      * rewrite filter_app. cbn. rewrite app_nil_r. apply (refs_are_pins C).
      * rewrite filter_app, Hy. reflexivity.
      * rewrite pins_of_app. cbn. rewrite app_nil_r. apply (pins_latest C).
      * rewrite filter_app, Hy. reflexivity.
  - destruct (userPin st) as [i |] eqn:Hp.
    + injection H as <-. eexists. split; [reflexivity |].
      cbn [layers]. unfold removeLayer.
      assert (Hpins : filter is_pin
                        (filter (fun x => negb (Nat.eqb (ident x) i))
                                (layers m))
                      = filter is_pin (layers m)).
      { rewrite filter_filter. apply filter_ext_in. intros x Hx.
        destruct (Nat.eqb (ident x) i) eqn:E; [| reflexivity].
        apply (you_by_ident C Hp x Hx) in E. unfold is_you in E.
        cbn [negb andb]. now destruct (is_pin x). }
      assert (Hyou : filter is_you
                       (filter (fun x => negb (Nat.eqb (ident x) i))
                               (layers m))
                     = []).
      { rewrite filter_filter. apply filter_none. intros x Hx.
        destruct (is_you x) eqn:E; [| apply andb_false_r].
        apply (you_by_ident C Hp x Hx) in E. now rewrite E. }
      split; cbn [next layerRef userPin].
      * assert (Hb := below C). rewrite Forall_forall in *.
        intros j Hj. apply Hb. apply in_map_iff in Hj as (x & <- & Hx).
        apply filter_In in Hx as [Hx _]. now apply in_map.
      * apply NoDup_ident_filter, (distinct C).
      * rewrite Hpins. apply (refs_are_pins C).
      * now rewrite Hyou.
      * rewrite <- pins_of_filter, Hpins, pins_of_filter.
        apply (pins_latest C).
      * now rewrite Hyou.
    + injection H as <-. exists m. split; [assumption |].
      pose proof (ref_is_you C) as Hy. rewrite Hp in Hy.
      apply map_eq_nil in Hy.
      split; try apply C. now rewrite Hy.
Qed.

Lemma run_settled (es : list effect) :
  forall (R : list Listing) (U : option LatLng.t) (st st' : state),
    settled R U st -> run accepts moves es st = Some st' ->
    settled (latest_pins R es) (latest_user U es) st'.
Proof.
  induction es as [| e es IH]; intros R U st st' S H.
  - cbn in H. injection H as <-. exact S.
  - cbn [run] in H.
    destruct (run_effect accepts moves e st) as [st1 |] eqn:E;
      [| discriminate].
    destruct e as [rs | c]; cbn [run_effect] in E;
      cbn [latest_pins latest_user fold_left].
    + apply (IH rs U st1 st'); [| exact H].
      exact (@update_pins_settled R rs U st st1 S E).
    + apply (IH R c st1 st'); [| exact H].
      exact (@update_user_settled R U c st st1 S E).
Qed.

Lemma settled_shown (R : list Listing) (U : option LatLng.t) (st : state) :
  settled R U st ->
  pins_shown st = map (fun r => (position r, r)) (filter placed R)
  /\ you_shown st = match U with Some c => [c] | None => [] end.
Proof.
  intros (m & Hm & C). unfold pins_shown, you_shown. rewrite Hm.
  split; [apply (pins_latest C) | apply (you_latest C)].
Qed.

(** X1: whatever effects ran since the mount, the map shows the amber pins
    of the latest list of listings alone: one for each listing with both
    coordinates, in the order of the list, at its coordinates, and such
    that a tap selects that listing.  It shows one blue pin, at the latest
    position, or none when the latest position is none. *)
Theorem map_shows_the_latest (es : list effect) (st : state) :
  run accepts moves es (mount unmounted) = Some st ->
  pins_shown st
  = map (fun r => (position r, r)) (filter placed (latest_pins [] es))
  /\ you_shown st
     = match latest_user None es with Some c => [c] | None => [] end.
Proof.
  intros H. apply settled_shown.
  exact (@run_settled es [] None (mount unmounted) st settled_mount H).
Qed.

(** X2: a tap on a marker selects nothing but a listing of the latest list
    that has both coordinates. *)
Theorem click_selects_a_current_listing
        (es : list effect) (st : state) (handler : bool) (i : nat)
        (r : Listing) :
  run accepts moves es (mount unmounted) = Some st ->
  click handler i st = Some r ->
  In r (latest_pins [] es) /\ placed r = true /\ handler = true.
Proof.
  intros H Hc.
  destruct (@run_settled es [] None (mount unmounted) st settled_mount H)
    as (m & Hm & C).
  unfold click in Hc. rewrite Hm in Hc.
  destruct (find (fun x => Nat.eqb (ident x) i) (layers m)) as [x |] eqn:F;
    [| discriminate].
  apply find_some in F as [Hx _].
  destruct (shows x) as [r' |] eqn:Hs; [| discriminate].
  destruct handler; [| discriminate]. injection Hc as ->.
  assert (Hin : In (latlng x, r) (pins_of (layers m))).
  { unfold pins_of. apply in_flat_map. exists x. split; [exact Hx |].
    rewrite Hs. now left. }
  rewrite (pins_latest C) in Hin.
  apply in_map_iff in Hin as (r0 & Hr0 & Hin).
  injection Hr0 as _ ->. apply filter_In in Hin as [Hin Hp].
  now repeat split.
Qed.

End Leaflet.

Lemma map_shows_the_latest_witness :
  exists st,
    run no_NaN (fun _ => true) sample_effects (mount unmounted) = Some st
    /\ pins_shown st
       = [(position Geolocation.listing_B, Geolocation.listing_B)]
    /\ you_shown st = [Geolocation.visitor].
Proof.
  eexists. split; [reflexivity |].
  apply (@map_shows_the_latest no_NaN (fun _ => true) sample_effects).
  reflexivity.
Defined.

Lemma click_selects_a_current_listing_witness :
  In Geolocation.listing_B [Geolocation.listing_B]
  /\ placed Geolocation.listing_B = true /\ true = true.
Proof.
  apply (@click_selects_a_current_listing no_NaN (fun _ => true)
           sample_effects
           {| mapObj :=
                Some {| layers :=
                          [{| ident := 1%nat; latlng := Geolocation.visitor;
                              shows := You |};
                           {| ident := 2%nat;
                              latlng := position Geolocation.listing_B;
                              shows := Pin Geolocation.listing_B |}];
                        viewport :=
                          FitBounds [position Geolocation.listing_B] |};
              layerRef := [2%nat]; userPin := Some 1%nat; next := 3%nat |}
           true 2%nat Geolocation.listing_B);
    reflexivity.
Defined.

End DinerMapFacts.

(* ------------------------------------------------------------------ *)
(** ** The menu that is saved *)
(* ------------------------------------------------------------------ *)

Module MenuFacts.

Import Menu.

Local Open Scope string_scope.

Lemma map_from_through (A B C : Type) (g : B -> C) (h : A -> C)
      (f : nat -> A -> B) (l : list A) :
  (forall k x, g (f k x) = h x) ->
  forall k, map g (map_from k f l) = map h l.
Proof.
  intros H. induction l as [| x l IH]; intros k; [reflexivity |].
  cbn [map_from map]. now rewrite H, IH.
Qed.

(** [parseInt] yields a whole number, an infinity or [NaN]. *)
Lemma parseInt10_cases (s : string) :
  (digitless s = true /\ parseInt10 s = NaN)
  \/ (exists z, parseInt10 s = ofZ z)
  \/ (exists neg, parseInt10 s = Inf neg).
Proof.
  unfold parseInt10, digitless.
  destruct (signed_rest (trimStart s)) as [neg r].
  destruct (digits r 0 0) as [[v n] rest].
  destruct (n =? 0)%Z; [now left | right].
  destruct (overflows v); [right | left]; eauto.
Qed.

Lemma parseInt10_digitless (s : string) :
  digitless s = true -> parseInt10 s = NaN.
Proof.
  unfold parseInt10, digitless.
  destruct (signed_rest (trimStart s)) as [neg r].
  destruct (digits r 0 0) as [[v n] rest].
  now intros ->.
Qed.

Lemma or_zero_cases (v : number) :
  v = NaN \/ (exists z, v = ofZ z) \/ (exists neg, v = Inf neg) ->
  (exists z, or_zero v = ofZ z) \/ (exists neg, or_zero v = Inf neg).
Proof.
  intros [-> | [(z & ->) | (neg & ->)]].
  - left. now exists 0%Z.
  - left. unfold or_zero, ofZ. destruct (Qeq_bool (inject_Z z) 0); eauto.
  - right. now exists neg.
Qed.

Section Host.

Variable Number_toString : number -> string.

(** X18: whatever the form holds, every section of the saved menu has a
    row, every row has a name, and every price is a whole number or, when
    its digits denote a number beyond the doubles, an infinity; it is never
    [NaN].  A price without a digit after white space and sign, the blank
    price among them, is saved as 0. *)
Theorem payload_menu_rows (menu : list Section_) :
  Forall (fun s =>
            saved_items s <> []
            /\ Forall (fun i => saved_name i <> ""
                                /\ ((exists z, saved_price i = ofZ z)
                                    \/ exists neg, saved_price i = Inf neg))
                      (saved_items s))
         (payload_menu Number_toString menu)
  /\ (forall i,
        digitless (price_string Number_toString (price i)) = true ->
        saved_price (save_item Number_toString i) = ofZ 0).
Proof.
  split.
  - apply Forall_forall. intros s Hs. unfold Menu.payload_menu in Hs.
    apply filter_In in Hs as [Hs Hlen]. split.
    + intros E. rewrite E in Hlen. discriminate.
    + apply in_map_iff in Hs as (s0 & <- & _).
      cbn [Menu.save_section saved_items].
      apply Forall_forall. intros i Hi.
      apply in_map_iff in Hi as (i0 & <- & Hi0).
      apply filter_In in Hi0 as [_ Hn].
      cbn [Menu.save_item saved_name saved_price].
      split.
      * unfold named in Hn. intros E. rewrite E in Hn. discriminate.
      * apply or_zero_cases.
        destruct (parseInt10_cases
                    (price_string Number_toString (price i0)))
          as [[_ H] | H]; [now left | now right].
  - intros i Hd. cbn [Menu.save_item saved_price].
    now rewrite (parseInt10_digitless _ Hd).
Qed.

Lemma save_section_blank (s : Section_) :
  save_section Number_toString
    {| category := category s; items := (items s ++ [blank])%list |}
  = save_section Number_toString s.
Proof.
  unfold Menu.save_section. cbn [category items].
  rewrite filter_app. cbn. now rewrite app_nil_r.
Qed.

(** X19: the blank rows that [addSection] and [addItem] put into the form
    never reach the saved menu. *)
Theorem blank_rows_are_not_saved (menu : list Section_) (si : nat) :
  payload_menu Number_toString (addSection menu)
  = payload_menu Number_toString menu
  /\ payload_menu Number_toString (addItem si menu)
     = payload_menu Number_toString menu.
Proof.
  unfold Menu.payload_menu, addSection, addItem. split.
  - rewrite map_app, filter_app. cbn. apply app_nil_r.
  - f_equal. apply map_from_through. intros k s.
    destruct (Nat.eqb k si); [apply save_section_blank | reflexivity].
Qed.

Lemma set_image_rows (ii : nat) (url : string) (l : list Item) :
  forall k,
    map (fun i => (saved_name i, saved_price i))
        (map (save_item Number_toString)
             (filter named
                     (map_from k
                        (fun jdx it =>
                           if Nat.eqb jdx ii
                           then {| name := name it; price := price it;
                                   image := Some url |}
                           else it)
                        l)))
    = map (fun i => (saved_name i, saved_price i))
          (map (save_item Number_toString) (filter named l)).
Proof.
  induction l as [| x l IH]; intros k; [reflexivity |].
  cbn [map_from filter].
  destruct (Nat.eqb k ii).
  - change (named {| name := name x; price := price x; image := Some url |})
      with (named x).
    destruct (named x);
      cbn [map Menu.save_item saved_name saved_price name price];
      now rewrite IH.
  - destruct (named x); cbn [map]; now rewrite IH.
Qed.

Lemma without_images_rows (a b : list SavedSection) :
  map rows a = map rows b ->
  without_images
    (filter (fun s => Nat.ltb 0 (Datatypes.length (saved_items s))) a)
  = without_images
      (filter (fun s => Nat.ltb 0 (Datatypes.length (saved_items s))) b).
Proof.
  revert b. induction a as [| x a IH]; intros [| y b] H; try discriminate.
  - reflexivity.
  - cbn [map] in H. injection H as Hc Hi Hab. cbn [filter].
    assert (L : Datatypes.length (saved_items x)
                = Datatypes.length (saved_items y)).
    { pose proof (f_equal (@Datatypes.length _) Hi) as Hl.
      now rewrite !length_map in Hl. }
    rewrite L.
    destruct (Nat.ltb 0 (Datatypes.length (saved_items y))).
    + unfold without_images in *. cbn [map]. rewrite Hc, Hi. f_equal.
      now apply IH.
    + now apply IH.
Qed.

(** X20: a photo uploaded for a row changes nothing of the saved menu but
    photos: the same sections and rows are saved, with the same names and
    prices, and a row without a name stays out even with a photo. *)
Theorem upload_changes_photos_only
        (si ii : nat) (url : string) (menu : list Section_) :
  without_images (payload_menu Number_toString (set_image si ii url menu))
  = without_images (payload_menu Number_toString menu).
Proof.
  unfold Menu.payload_menu. apply without_images_rows.
  rewrite !map_map. unfold set_image. apply map_from_through.
  intros k s. destruct (Nat.eqb k si); [| reflexivity].
  unfold rows.
  cbn [Menu.save_section saved_category saved_items category items].
  f_equal. apply set_image_rows.
Qed.

End Host.

End MenuFacts.
